(** * fund_modelling: calendar arithmetic and the closed-end fund engine

    A shallow embedding of [src/fund_models/date_utils.py] and
    [src/fund_models/fund_models.py].

    Conventions of the embedding.
    - A Python [int] is a [Z]; [//] and [%] are [Z.div] and [Z.modulo]
      (both floor, as in Python).
    - A Python [float] amount or rate is an exact rational [Q]: rounding is
      not modelled, so an equation between amounts is stated with [==]
      ([Qeq]) and reads as the exact counterpart of the float equation.
    - [datetime.date] is the record [date]; its constructor is [new_date],
      which raises [ValueError] outside the years 1..9999 exactly as
      [datetime.date(y, m, d)] does.
    - A Python [dict] keyed by dates is an insertion-ordered association
      list ([Dict]); [update] overwrites in place or appends.
    - A raised exception is the [Raise] constructor of [result]. *)

From Stdlib Require Import String.
From Stdlib Require Import ZArith QArith Qminmax Qpower List Lia Lqa Bool.
From Stdlib Require Import FinFun.
Import ListNotations.
Open Scope Z_scope.

(** ** Exceptions *)

(** The five messages of [ClosedEndFundError] raised by the constructor. *)
Inductive cef_message : Type :=
| DeploymentBeforeFundStart
    (* 'Deployment start date must be later than fund start date' *)
| FundStartNotMonthEnd
    (* 'Fund start date must be at end of month' *)
| DeploymentStartNotMonthEnd
    (* 'Deployment start date must be at end of month' *)
| NotWholeNumberOfDeployments (months between : Z)
    (* 'The combination of {months} months in deployment with {between}
       months in between deployments generates ... which is not allowed' *)
| CommittedCapitalNotPositive
    (* 'Committed capital must be greater than zero' *).

Inductive exn : Type :=
| ValueError
| TypeError
| ZeroDivisionError
| ClosedEndFundError (m : cef_message).

Inductive result (A : Type) : Type :=
| OK (a : A)
| Raise (e : exn).

Arguments OK {A} a.
Arguments Raise {A} e.

Definition bind {A B : Type} (r : result A) (f : A -> result B) : result B :=
  match r with
  | OK a => f a
  | Raise e => Raise e
  end.

Notation "x <- c1 ;; c2" := (bind c1 (fun x => c2))
  (at level 61, c1 at next level, right associativity).

(** [[f(x) for x in xs]] where [f] may raise. *)
Fixpoint comprehension {A B : Type} (f : A -> result B) (xs : list A)
  : result (list B) :=
  match xs with
  | [] => OK []
  | x :: r => y <- f x ;; ys <- comprehension f r ;; OK (y :: ys)
  end.

(** [range(0, n)]. *)
Definition range (n : Z) : list Z := map Z.of_nat (seq 0 (Z.to_nat n)).

(** ** date_utils.py *)

Record date : Type := mkdate { year : Z; month : Z; day : Z }.

Definition MINYEAR : Z := 1.
Definition MAXYEAR : Z := 9999.

(** [calendar.isleap]. *)
Definition isleap (y : Z) : bool :=
  (y mod 4 =? 0) && (negb (y mod 100 =? 0) || (y mod 400 =? 0)).

(** [calendar.mdays]. *)
Definition mdays (m : Z) : Z :=
  match m with
  | 1 => 31 | 2 => 28 | 3 => 31 | 4 => 30 | 5 => 31 | 6 => 30
  | 7 => 31 | 8 => 31 | 9 => 30 | 10 => 31 | 11 => 30 | 12 => 31
  | _ => 0
  end.

(** [calendar.monthrange(y, m)[1]], for a month in 1..12. *)
Definition monthrange (y m : Z) : Z :=
  mdays m + (if (m =? 2) && isleap y then 1 else 0).

Definition valid_ymd (y m d : Z) : bool :=
  (MINYEAR <=? y) && (y <=? MAXYEAR) && (1 <=? m) && (m <=? 12)
  && (1 <=? d) && (d <=? monthrange y m).

(** The values of type [datetime.date]. *)
Definition valid_date (d : date) : bool := valid_ymd (year d) (month d) (day d).

(** [datetime.date(y, m, d)]. *)
Definition new_date (y m d : Z) : result date :=
  if valid_ymd y m d then OK (mkdate y m d) else Raise ValueError.

Definition date_eqb (a b : date) : bool :=
  (year a =? year b) && (month a =? month b) && (day a =? day b).

(** [a < b] on dates. *)
Definition date_ltb (a b : date) : bool :=
  (year a <? year b)
  || ((year a =? year b)
      && ((month a <? month b) || ((month a =? month b) && (day a <? day b)))).

Definition date_leb (a b : date) : bool := negb (date_ltb b a).

Definition year_month_num (d : date) : Z := year d * 12 + month d.

(** The decoding of a year-month number shared by [end_of_month_from_int] and
    [add_n_months]. *)
Definition decode (i : Z) : Z * Z :=
  if negb (i mod 12 =? 0) then (i / 12, i mod 12) else (i / 12 - 1, 12).

Definition end_of_month_from_int (year_month_int : Z) : result date :=
  let '(eom_year, eom_month) := decode year_month_int in
  let eom_day := monthrange eom_year eom_month in
  new_date eom_year eom_month eom_day.

Definition end_of_month_from_date (d : date) : result date :=
  end_of_month_from_int (year_month_num d).

Definition add_n_months (start_date : date) (num_months : Z)
  (end_of_month : bool) : result date :=
  let return_date_year_month_int := year_month_num start_date + num_months in
  let '(return_date_year, return_date_month) :=
    decode return_date_year_month_int in
  let return_date_day :=
    Z.min (day start_date) (monthrange return_date_year return_date_month) in
  return_date <- new_date return_date_year return_date_month return_date_day ;;
  if end_of_month then end_of_month_from_date return_date
  else OK return_date.

Definition number_of_months_diff (start_date end_date : date) : Z :=
  year_month_num end_date - year_month_num start_date.

Definition generate_monthly_date_series (start_date end_date : date)
  : result (list date) :=
  let month_diff := number_of_months_diff start_date end_date in
  comprehension
    (fun diff => end_of_month_from_int (year_month_num start_date + diff))
    (range (month_diff + 1)).

Definition days_in_month (d : date) : Z := monthrange (year d) (month d).

(** [datetime.date.toordinal]. *)
Definition days_before_year (y : Z) : Z :=
  let y1 := y - 1 in y1 * 365 + y1 / 4 - y1 / 100 + y1 / 400.

Definition days_before_month (y m : Z) : Z :=
  fold_right Z.add 0 (map (monthrange y) (map (fun k => k + 1) (range (m - 1)))).

Definition toordinal (d : date) : Z :=
  days_before_year (year d) + days_before_month (year d) (month d) + day d.

Definition days_in_year (d : date) : result Z :=
  d1 <- new_date (year d + 1) 1 1 ;;
  d0 <- new_date (year d) 1 1 ;;
  OK (toordinal d1 - toordinal d0).

Definition is_month_end (d : date) : bool := day d =? monthrange (year d) (month d).

(** ** Python numbers and dictionaries *)

(** [a % b] on ints. *)
Definition py_mod (a b : Z) : result Z :=
  if b =? 0 then Raise ZeroDivisionError else OK (a mod b).

(** [a / b], true division. *)
Definition py_div (a b : Q) : result Q :=
  if Qeq_bool b 0 then Raise ZeroDivisionError else OK (a / b)%Q.

(** [min(a, b)]: the first argument unless the second is strictly smaller. *)
Definition py_min (a b : Q) : Q :=
  match (b ?= a)%Q with Lt => b | _ => a end.

(** [a > b] on floats. *)
Definition Qgtb (a b : Q) : bool :=
  match (a ?= b)%Q with Gt => true | _ => false end.

(** [True] and [False] as factors. *)
Definition bool_factor (b : bool) : Q := if b then 1%Q else 0%Q.

Module Dict.

Definition t (V : Type) : Type := list (date * V).

Definition empty {V : Type} : t V := [].

(** [m.get(k)], [None] when the key is absent. *)
Fixpoint get {V : Type} (m : t V) (k : date) : option V :=
  match m with
  | [] => None
  | (k', v) :: r => if date_eqb k' k then Some v else get r k
  end.

(** [m.get(k, default)]. *)
Definition get_default {V : Type} (m : t V) (k : date) (default : V) : V :=
  match get m k with Some v => v | None => default end.

(** [m.update({k: v})]: overwrite in place, or append. *)
Fixpoint update {V : Type} (m : t V) (k : date) (v : V) : t V :=
  match m with
  | [] => [(k, v)]
  | (k', v') :: r =>
      if date_eqb k' k then (k', v) :: r else (k', v') :: update r k v
  end.

Definition keys {V : Type} (m : t V) : list date := map fst m.
Definition values {V : Type} (m : t V) : list V := map snd m.
Definition items {V : Type} (m : t V) : list (date * V) := m.

End Dict.

(** [max(dates)]: [ValueError] on an empty sequence. *)
Definition max_date (ds : list date) : result date :=
  match ds with
  | [] => Raise ValueError
  | d :: r => OK (fold_left (fun m x => if date_ltb m x then x else m) r d)
  end.

(** [sum(values)]. *)
Definition sum (vs : list Q) : Q := fold_left Qplus vs 0%Q.

(** [for x in xs: body], over a state, stopping at the first exception. *)
Fixpoint for_each {A S : Type} (body : A -> S -> result S) (xs : list A)
  (s : S) : result S :=
  match xs with
  | [] => OK s
  | x :: r => s' <- body x s ;; for_each body r s'
  end.

(** [numpy_financial.fv(rate, nper, pmt, pv, when='end')]. *)
Definition fv (rate : Q) (nper : Z) (pmt pv : Q) : Q :=
  if Qeq_bool rate 0 then (- (pv + pmt * inject_Z nper))%Q
  else
    let temp := ((1 + rate) ^ nper)%Q in
    (- pv * temp - pmt * (1 + rate * 0) / rate * (temp - 1))%Q.

(** ** fund_models.py *)

(** The arguments of [ClosedEndFund.__init__], as the caller supplies them. *)
Record init_args : Type := {
  arg_fund_name : String.string;
  arg_fund_start_date : date;
  arg_deployment_start_date : date;
  arg_annual_effective_irr : Q;
  arg_committed_capital : Q;
  arg_annual_mgmt_fee_rate : Q;
  arg_carry_percent : Q;
  arg_annual_effective_irr_hurdle : Q;
  arg_number_of_months_of_deployment : Z;
  arg_number_of_months_in_between_deployments : Z;
  arg_length_of_deployment_in_months : Z;
  arg_carry_catch_up : bool
}.

(** The attributes of a constructed [ClosedEndFund]. *)
Record ClosedEndFund : Type := {
  fund_name : String.string;
  fund_start_date : date;
  annual_mgmt_fee_rate : Q;
  carry_percent : Q;
  deployment_start_date : date;
  annual_effective_irr : Q;
  annual_effective_irr_hurdle : Q;
  committed_capital : Q;
  number_of_months_of_deployment : Z;
  number_of_months_in_between_deployments : Z;
  length_of_deployment_in_months : Z;
  carry_catch_up : bool
}.

(** [ClosedEndFund.__init__]: an exception leaves no object behind. *)
Definition init (a : init_args) : result ClosedEndFund :=
  if date_ltb (arg_deployment_start_date a) (arg_fund_start_date a) then
    Raise (ClosedEndFundError DeploymentBeforeFundStart)
  else
  eom_fund <- end_of_month_from_date (arg_fund_start_date a) ;;
  if negb (date_eqb eom_fund (arg_fund_start_date a)) then
    Raise (ClosedEndFundError FundStartNotMonthEnd)
  else
  eom_deployment <- end_of_month_from_date (arg_deployment_start_date a) ;;
  if negb (date_eqb eom_deployment (arg_deployment_start_date a)) then
    Raise (ClosedEndFundError DeploymentStartNotMonthEnd)
  else
  remainder <- py_mod (arg_number_of_months_of_deployment a)
                      (arg_number_of_months_in_between_deployments a) ;;
  if negb (remainder =? 0) then
    Raise (ClosedEndFundError
             (NotWholeNumberOfDeployments
                (arg_number_of_months_of_deployment a)
                (arg_number_of_months_in_between_deployments a)))
  else
  if Qle_bool (arg_committed_capital a) 0 then
    Raise (ClosedEndFundError CommittedCapitalNotPositive)
  else
  fund_start <- end_of_month_from_date (arg_fund_start_date a) ;;
  deployment_start <- end_of_month_from_date (arg_deployment_start_date a) ;;
  OK {| fund_name := arg_fund_name a;
        fund_start_date := fund_start;
        annual_mgmt_fee_rate := arg_annual_mgmt_fee_rate a;
        carry_percent := arg_carry_percent a;
        deployment_start_date := deployment_start;
        annual_effective_irr := arg_annual_effective_irr a;
        annual_effective_irr_hurdle := arg_annual_effective_irr_hurdle a;
        committed_capital := arg_committed_capital a;
        number_of_months_of_deployment := arg_number_of_months_of_deployment a;
        number_of_months_in_between_deployments :=
          arg_number_of_months_in_between_deployments a;
        length_of_deployment_in_months := arg_length_of_deployment_in_months a;
        carry_catch_up := arg_carry_catch_up a |}.

(** [int(months_of_deployment / months_in_between)]: the quotient truncated
    towards zero; the division raises on a zero divisor. *)
Definition number_of_deployments (self : ClosedEndFund) : result Z :=
  if number_of_months_in_between_deployments self =? 0 then
    Raise ZeroDivisionError
  else
    OK (Z.quot (number_of_months_of_deployment self)
               (number_of_months_in_between_deployments self)).

Definition generate_deployments (self : ClosedEndFund) : result (Dict.t Q) :=
  n <- number_of_deployments self ;;
  amount_per_deployment <- py_div (committed_capital self) (inject_Z n) ;;
  for_each
    (fun num deployments =>
       key <- add_n_months (deployment_start_date self)
                (num * number_of_months_in_between_deployments self) true ;;
       OK (Dict.update deployments key amount_per_deployment))
    (range n) Dict.empty.

Definition generate_capital_returns (self : ClosedEndFund)
  : result (Dict.t Q) :=
  deployments <- generate_deployments self ;;
  for_each
    (fun '(d, value) capital_returns =>
       key <- add_n_months d (length_of_deployment_in_months self) true ;;
       OK (Dict.update capital_returns key value))
    (Dict.items deployments) Dict.empty.

Definition monthly_date_series (self : ClosedEndFund) : result (list date) :=
  capital_returns <- generate_capital_returns self ;;
  last <- max_date (Dict.keys capital_returns) ;;
  generate_monthly_date_series (fund_start_date self) last.

(** The engine's rates are twelfth roots, [x ** (1/12)] on floats.  The root
    is a parameter of the development: nothing below depends on its value.
    It stands for the real root: on a negative base Python's power returns a
    complex number, which the engine's comparisons reject with [TypeError];
    configs with an annual rate below -1 are outside this model
    (see [real_rates]). *)
Section Engine.

Variable pow_twelfth : Q -> Q.

Definition irr_per_month (self : ClosedEndFund) : Q :=
  (pow_twelfth (1 + annual_effective_irr self) - 1)%Q.

Definition irr_hurdle_per_month (self : ClosedEndFund) : Q :=
  (pow_twelfth (1 + annual_effective_irr_hurdle self) - 1)%Q.

Definition generate_proceeds (self : ClosedEndFund) : result (Dict.t Q) :=
  deployments <- generate_deployments self ;;
  for_each
    (fun '(d, value) proceeds =>
       let amount :=
         fv (irr_per_month self) (length_of_deployment_in_months self)
            0 (- value) in
       key <- add_n_months d (length_of_deployment_in_months self) true ;;
       OK (Dict.update proceeds key amount))
    (Dict.items deployments) Dict.empty.

(** [value - capital_returns.get(date)]: a missing key gives [None], and the
    subtraction then raises [TypeError]. *)
Definition generate_profits (self : ClosedEndFund) : result (Dict.t Q) :=
  capital_returns <- generate_capital_returns self ;;
  proceeds <- generate_proceeds self ;;
  for_each
    (fun '(d, value) profits =>
       match Dict.get capital_returns d with
       | Some capital_return =>
           OK (Dict.update profits d (value - capital_return)%Q)
       | None => Raise TypeError
       end)
    (Dict.items proceeds) Dict.empty.

Definition calculate_total_profit (self : ClosedEndFund) : result Q :=
  profits <- generate_profits self ;;
  OK (sum (Dict.values profits)).

(** The eleven schedules of [generate_proceeds_allocations_as_dict]. *)
Record schedules : Type := {
  lp_preferred_opening : Dict.t Q;
  lp_preferred_irr_growth : Dict.t Q;
  lp_preferred_payments : Dict.t Q;
  lp_preferred_closing : Dict.t Q;
  catch_up_opening : Dict.t Q;
  catch_up_accruals : Dict.t Q;
  catch_up_payments_gp_share : Dict.t Q;
  catch_up_payments_lp_share : Dict.t Q;
  catch_up_closing : Dict.t Q;
  post_catch_up_payments_gp_share : Dict.t Q;
  post_catch_up_payments_lp_share : Dict.t Q
}.

Definition empty_schedules : schedules :=
  {| lp_preferred_opening := Dict.empty;
     lp_preferred_irr_growth := Dict.empty;
     lp_preferred_payments := Dict.empty;
     lp_preferred_closing := Dict.empty;
     catch_up_opening := Dict.empty;
     catch_up_accruals := Dict.empty;
     catch_up_payments_gp_share := Dict.empty;
     catch_up_payments_lp_share := Dict.empty;
     catch_up_closing := Dict.empty;
     post_catch_up_payments_gp_share := Dict.empty;
     post_catch_up_payments_lp_share := Dict.empty |}.

(** One turn of the loop of [generate_proceeds_allocations_as_dict]. *)
Definition allocation_step (self : ClosedEndFund)
  (deployments proceeds : Dict.t Q) (d : date) (s : schedules)
  : result schedules :=
  let proceed := Dict.get_default proceeds d 0%Q in
  prev <- add_n_months d (-1) true ;;
  let lp_preferred_opening_balance :=
    Dict.get_default (lp_preferred_closing s) prev 0%Q in
  let lp_preferred_irr_growth_for_month :=
    (lp_preferred_opening_balance * irr_hurdle_per_month self)%Q in
  let deployment := Dict.get_default deployments d 0%Q in
  let lp_preferred_due :=
    (lp_preferred_opening_balance + lp_preferred_irr_growth_for_month
     + deployment)%Q in
  let lp_preferred_payment := py_min proceed lp_preferred_due in
  prev' <- add_n_months d (-1) true ;;
  let catch_up_opening_balance :=
    Dict.get_default (catch_up_closing s) prev' 0%Q in
  fraction <- py_div (carry_percent self) ((1 # 2) - carry_percent self)%Q ;;
  let catch_up_accrual :=
    (lp_preferred_irr_growth_for_month * (fraction * (1 # 2))
     * bool_factor (carry_catch_up self))%Q in
  let s1 :=
    {| lp_preferred_opening :=
         Dict.update (lp_preferred_opening s) d lp_preferred_opening_balance;
       lp_preferred_irr_growth :=
         Dict.update (lp_preferred_irr_growth s) d
           lp_preferred_irr_growth_for_month;
       lp_preferred_payments :=
         Dict.update (lp_preferred_payments s) d lp_preferred_payment;
       lp_preferred_closing :=
         Dict.update (lp_preferred_closing s) d
           (lp_preferred_due - lp_preferred_payment)%Q;
       catch_up_opening :=
         Dict.update (catch_up_opening s) d catch_up_opening_balance;
       catch_up_accruals :=
         Dict.update (catch_up_accruals s) d catch_up_accrual;
       catch_up_payments_gp_share := catch_up_payments_gp_share s;
       catch_up_payments_lp_share := catch_up_payments_lp_share s;
       catch_up_closing := catch_up_closing s;
       post_catch_up_payments_gp_share := post_catch_up_payments_gp_share s;
       post_catch_up_payments_lp_share := post_catch_up_payments_lp_share s |}
  in
  let finish gp lp closing post_gp post_lp :=
    {| lp_preferred_opening := lp_preferred_opening s1;
       lp_preferred_irr_growth := lp_preferred_irr_growth s1;
       lp_preferred_payments := lp_preferred_payments s1;
       lp_preferred_closing := lp_preferred_closing s1;
       catch_up_opening := catch_up_opening s1;
       catch_up_accruals := catch_up_accruals s1;
       catch_up_payments_gp_share :=
         Dict.update (catch_up_payments_gp_share s1) d gp;
       catch_up_payments_lp_share :=
         Dict.update (catch_up_payments_lp_share s1) d lp;
       catch_up_closing := Dict.update (catch_up_closing s1) d closing;
       post_catch_up_payments_gp_share :=
         Dict.update (post_catch_up_payments_gp_share s1) d post_gp;
       post_catch_up_payments_lp_share :=
         Dict.update (post_catch_up_payments_lp_share s1) d post_lp |}
  in
  if Qgtb proceed lp_preferred_payment then
    capacity <- py_div (catch_up_opening_balance + catch_up_accrual)%Q (1 # 2) ;;
    let catch_up_payment :=
      py_min capacity (proceed - lp_preferred_payment)%Q in
    let catch_up_payment_gp_share := (catch_up_payment * (1 # 2))%Q in
    let catch_up_payment_lp_share := (catch_up_payment * (1 # 2))%Q in
    let closing :=
      (catch_up_opening_balance + catch_up_accrual
       - catch_up_payment_gp_share)%Q in
    if Qgtb proceed (lp_preferred_payment + catch_up_payment)%Q then
      let post_catch_up_payment :=
        (proceed - lp_preferred_payment - catch_up_payment)%Q in
      let post_catch_up_payment_lp_share :=
        (post_catch_up_payment * (1 - carry_percent self))%Q in
      let post_catch_up_payment_gp_share :=
        (post_catch_up_payment * carry_percent self)%Q in
      OK (finish catch_up_payment_gp_share catch_up_payment_lp_share closing
            post_catch_up_payment_gp_share post_catch_up_payment_lp_share)
    else
      OK (finish catch_up_payment_gp_share catch_up_payment_lp_share closing
            0%Q 0%Q)
  else
    OK (finish 0%Q 0%Q (catch_up_opening_balance + catch_up_accrual)%Q
          0%Q 0%Q).

Definition generate_proceeds_allocations_as_dict (self : ClosedEndFund)
  : result schedules :=
  deployments <- generate_deployments self ;;
  proceeds <- generate_proceeds self ;;
  capital_returns <- generate_capital_returns self ;;
  dates <- monthly_date_series self ;;
  for_each (allocation_step self deployments proceeds) dates empty_schedules.

(** One turn of the loop of [generate_closing_invested_capital]. *)
Definition closing_invested_capital_step
  (deployments capital_returns : Dict.t Q) (d : date)
  (closing_invested_capital : Dict.t Q) : result (Dict.t Q) :=
  prev <- add_n_months d (-1) true ;;
  let opening_balance :=
    Dict.get_default closing_invested_capital prev 0%Q in
  let deployment := Dict.get_default deployments d 0%Q in
  let capital_return := Dict.get_default capital_returns d 0%Q in
  let closing_balance :=
    (opening_balance + deployment - capital_return)%Q in
  OK (Dict.update closing_invested_capital d closing_balance).

Definition generate_closing_invested_capital (self : ClosedEndFund)
  : result (Dict.t Q) :=
  deployments <- generate_deployments self ;;
  capital_returns <- generate_capital_returns self ;;
  dates <- monthly_date_series self ;;
  for_each (closing_invested_capital_step deployments capital_returns)
    dates Dict.empty.

Definition generate_fee_paying_capital (self : ClosedEndFund)
  : result (Dict.t Q) :=
  closing_invested_capital <- generate_closing_invested_capital self ;;
  deployments <- generate_deployments self ;;
  last_deployments <- max_date (map fst (Dict.items deployments)) ;;
  dates <- monthly_date_series self ;;
  for_each
    (fun d fee_paying_capital =>
       let capital :=
         if date_leb d last_deployments then committed_capital self
         else Dict.get_default closing_invested_capital d 0%Q in
       OK (Dict.update fee_paying_capital d capital))
    dates Dict.empty.

Definition generate_mgmt_fees (self : ClosedEndFund) : result (Dict.t Q) :=
  closing_invested_capital <- generate_closing_invested_capital self ;;
  deployments <- generate_deployments self ;;
  last_deployments <- max_date (map fst (Dict.items deployments)) ;;
  dates <- monthly_date_series self ;;
  for_each
    (fun d mgmt_fees =>
       let num_days_in_month := days_in_month d in
       num_days_in_year <- days_in_year d ;;
       let closing_invested_capital_balance :=
         Dict.get_default closing_invested_capital d 0%Q in
       fee <-
         (if date_leb d last_deployments then
            py_div (committed_capital self * annual_mgmt_fee_rate self
                    * inject_Z num_days_in_month)%Q
                   (inject_Z num_days_in_year)
          else
            py_div (closing_invested_capital_balance
                    * annual_mgmt_fee_rate self
                    * inject_Z num_days_in_month)%Q
                   (inject_Z num_days_in_year)) ;;
       OK (Dict.update mgmt_fees d fee))
    dates Dict.empty.

End Engine.

(** ** Specification vocabulary *)

(** The year-month numbers of the months [datetime.date] can hold:
    January of year 1 up to December of year 9999. *)
Definition in_calendar (i : Z) : bool :=
  (13 <=? i) && (i <=? MAXYEAR * 12 + 12).

(** The month-end date of a year-month number, when the calendar has it. *)
Definition month_end_of (i : Z) : date :=
  mkdate (fst (decode i)) (snd (decode i))
    (monthrange (fst (decode i)) (snd (decode i))).

(** What the specification says of [generate_monthly_date_series a b]: a
    sequence of month-end dates, [months_between + 1] long, from the month-end
    of [a]'s month to the month-end of [b]'s month, each element one month
    after the one before. *)
Definition month_end_series_spec (a b : date) : Prop :=
  exists l first last,
    generate_monthly_date_series a b = OK l
    /\ Z.of_nat (length l) = number_of_months_diff a b + 1
    /\ (forall d, In d l -> valid_date d = true /\ is_month_end d = true)
    /\ end_of_month_from_date a = OK first /\ hd_error l = Some first
    /\ end_of_month_from_date b = OK last
    /\ nth_error l (length l - 1) = Some last
    /\ (forall i x y,
          nth_error l i = Some x -> nth_error l (S i) = Some y ->
          date_ltb x y = true
          /\ year_month_num y = year_month_num x + 1).

(** The last day of the calendar month before [d]'s month, built as a
    [datetime.date]: there is none before January of year 1. *)
Definition preceding_month_end (d : date) : result date :=
  let '(y, m) :=
    if month d =? 1 then (year d - 1, 12) else (year d, month d - 1) in
  new_date y m (monthrange y m).

(** The first of the constructor's checks that the caller-supplied values
    violate, in the order (a) deployment start not before fund start,
    (b) fund start at month-end, (c) deployment start at month-end,
    (d) months of deployment divisible by the months in between,
    (e) committed capital positive; [None] when all five pass. *)
Definition divisible (a b : Z) : bool := a mod b =? 0.

Definition first_violated_check (a : init_args) : option cef_message :=
  if negb (date_leb (arg_fund_start_date a) (arg_deployment_start_date a))
  then Some DeploymentBeforeFundStart
  else if negb (is_month_end (arg_fund_start_date a))
  then Some FundStartNotMonthEnd
  else if negb (is_month_end (arg_deployment_start_date a))
  then Some DeploymentStartNotMonthEnd
  else if negb (divisible (arg_number_of_months_of_deployment a)
                  (arg_number_of_months_in_between_deployments a))
  then Some (NotWholeNumberOfDeployments
               (arg_number_of_months_of_deployment a)
               (arg_number_of_months_in_between_deployments a))
  else if negb (Qgtb (arg_committed_capital a) 0)
  then Some CommittedCapitalNotPositive
  else None.

(** The engine a successful construction leaves: every argument stored as
    supplied, the two dates being month-end already. *)
Definition constructed (a : init_args) : ClosedEndFund :=
  {| fund_name := arg_fund_name a;
     fund_start_date := arg_fund_start_date a;
     annual_mgmt_fee_rate := arg_annual_mgmt_fee_rate a;
     carry_percent := arg_carry_percent a;
     deployment_start_date := arg_deployment_start_date a;
     annual_effective_irr := arg_annual_effective_irr a;
     annual_effective_irr_hurdle := arg_annual_effective_irr_hurdle a;
     committed_capital := arg_committed_capital a;
     number_of_months_of_deployment := arg_number_of_months_of_deployment a;
     number_of_months_in_between_deployments :=
       arg_number_of_months_in_between_deployments a;
     length_of_deployment_in_months := arg_length_of_deployment_in_months a;
     carry_catch_up := arg_carry_catch_up a |}.

(** Construction as the specification describes it: the error of the first
    violated check, or the engine. *)
Definition construction_spec (a : init_args) : result ClosedEndFund :=
  match first_violated_check a with
  | Some m => Raise (ClosedEndFundError m)
  | None => OK (constructed a)
  end.

(** The caller's dates are [datetime.date] values. *)
Definition valid_args (a : init_args) : bool :=
  valid_date (arg_fund_start_date a)
  && valid_date (arg_deployment_start_date a).

(** The first fund of [run_scenario.py]. *)
Definition fund1_args : init_args :=
  {| arg_fund_name := "Fund1"%string;
     arg_fund_start_date := mkdate 2021 3 31;
     arg_deployment_start_date := mkdate 2021 6 30;
     arg_annual_effective_irr := 15 # 100;
     arg_committed_capital := 500000000;
     arg_annual_mgmt_fee_rate := 5 # 1000;
     arg_carry_percent := 2 # 10;
     arg_annual_effective_irr_hurdle := 1 # 10;
     arg_number_of_months_of_deployment := 36;
     arg_number_of_months_in_between_deployments := 3;
     arg_length_of_deployment_in_months := 36;
     arg_carry_catch_up := true |}.

(** A small fund for evaluating whole runs: two monthly deployments held for
    two months. *)
Definition small_args : init_args :=
  {| arg_fund_name := "Small"%string;
     arg_fund_start_date := mkdate 2021 3 31;
     arg_deployment_start_date := mkdate 2021 4 30;
     arg_annual_effective_irr := 15 # 100;
     arg_committed_capital := 100;
     arg_annual_mgmt_fee_rate := 5 # 1000;
     arg_carry_percent := 2 # 10;
     arg_annual_effective_irr_hurdle := 1 # 10;
     arg_number_of_months_of_deployment := 2;
     arg_number_of_months_in_between_deployments := 1;
     arg_length_of_deployment_in_months := 2;
     arg_carry_catch_up := true |}.

(** [fund1_args] with a zero interval between deployments. *)
Definition zero_interval_args : init_args :=
  {| arg_fund_name := "Fund1"%string;
     arg_fund_start_date := mkdate 2021 3 31;
     arg_deployment_start_date := mkdate 2021 6 30;
     arg_annual_effective_irr := 15 # 100;
     arg_committed_capital := 500000000;
     arg_annual_mgmt_fee_rate := 5 # 1000;
     arg_carry_percent := 2 # 10;
     arg_annual_effective_irr_hurdle := 1 # 10;
     arg_number_of_months_of_deployment := 36;
     arg_number_of_months_in_between_deployments := 0;
     arg_length_of_deployment_in_months := 36;
     arg_carry_catch_up := true |}.

(** A rational stand-in for [x ** (1/12)], used to evaluate concrete runs:
    the first-order expansion around 1. *)
Definition pow_twelfth_approx (x : Q) : Q := (1 + (x - 1) / 12)%Q.

(** A validated config: an engine some call of the constructor returned. *)
Definition validated (self : ClosedEndFund) : Prop :=
  exists a, init a = OK self.

(** The year-month number of the [k]-th deployment. *)
Definition deployment_month (self : ClosedEndFund) (k : Z) : Z :=
  year_month_num (deployment_start_date self)
  + k * number_of_months_in_between_deployments self.

(** What the specification says of [generate_deployments], the end-of-month
    flag of the key's [add_n_months] left open: [n] entries, the [k]-th keyed
    at the deployment start shifted by [k] intervals and holding
    [committed_capital / n], the values adding up to the committed capital. *)
Definition deployments_spec (end_of_month : bool) (self : ClosedEndFund)
  : Prop :=
  exists n deployments,
    number_of_deployments self = OK n
    /\ generate_deployments self = OK deployments
    /\ Z.of_nat (length (Dict.items deployments)) = n
    /\ (forall k, 0 <= k < n ->
          exists key,
            add_n_months (deployment_start_date self)
              (k * number_of_months_in_between_deployments self) end_of_month
            = OK key
            /\ nth_error (Dict.items deployments) (Z.to_nat k)
               = Some (key, (committed_capital self / inject_Z n)%Q))
    /\ (sum (Dict.values deployments) == committed_capital self)%Q.

(** The year-month number of the [k]-th capital return. *)
Definition return_month (self : ClosedEndFund) (k : Z) : Z :=
  deployment_month self k + length_of_deployment_in_months self.

(** One date's entries of the eleven waterfall schedules. *)
Record period : Type := {
  p_lp_opening : Q;
  p_lp_growth : Q;
  p_lp_payment : Q;
  p_lp_closing : Q;
  p_cu_opening : Q;
  p_cu_accrual : Q;
  p_cu_payment_gp : Q;
  p_cu_payment_lp : Q;
  p_cu_closing : Q;
  p_post_gp : Q;
  p_post_lp : Q
}.

(** [schedule[d]] for each of the eleven schedules; [None] when one of them
    has no entry at [d]. *)
Definition period_at (s : schedules) (d : date) : option period :=
  match Dict.get (lp_preferred_opening s) d,
        Dict.get (lp_preferred_irr_growth s) d,
        Dict.get (lp_preferred_payments s) d,
        Dict.get (lp_preferred_closing s) d,
        Dict.get (catch_up_opening s) d,
        Dict.get (catch_up_accruals s) d,
        Dict.get (catch_up_payments_gp_share s) d,
        Dict.get (catch_up_payments_lp_share s) d,
        Dict.get (catch_up_closing s) d,
        Dict.get (post_catch_up_payments_gp_share s) d,
        Dict.get (post_catch_up_payments_lp_share s) d
  with
  | Some a1, Some a2, Some a3, Some a4, Some a5, Some a6, Some a7, Some a8,
    Some a9, Some a10, Some a11 =>
      Some {| p_lp_opening := a1; p_lp_growth := a2; p_lp_payment := a3;
              p_lp_closing := a4; p_cu_opening := a5; p_cu_accrual := a6;
              p_cu_payment_gp := a7; p_cu_payment_lp := a8;
              p_cu_closing := a9; p_post_gp := a10; p_post_lp := a11 |}
  | _, _, _, _, _, _, _, _, _, _, _ => None
  end.

(** What one turn of the waterfall loop records at its date [d], from the
    balances [lp_open] and [cu_open] it read and the catch-up fraction. *)
Definition period_rule (self : ClosedEndFund) (hurdle_per_month : Q)
  (proceed deployment lp_open cu_open fraction : Q) (p : period) : Prop :=
  let due := (p_lp_opening p + p_lp_growth p + deployment)%Q in
  p_lp_opening p = lp_open
  /\ p_lp_growth p = (lp_open * hurdle_per_month)%Q
  /\ p_lp_payment p = py_min proceed due
  /\ p_lp_closing p = (due - p_lp_payment p)%Q
  /\ p_cu_opening p = cu_open
  /\ p_cu_accrual p =
     (p_lp_growth p * (fraction * (1 # 2))
      * bool_factor (carry_catch_up self))%Q
  /\ (if Qgtb proceed (p_lp_payment p) then
        let catch_up_payment :=
          py_min ((p_cu_opening p + p_cu_accrual p) / (1 # 2))%Q
                 (proceed - p_lp_payment p)%Q in
        p_cu_payment_gp p = (catch_up_payment * (1 # 2))%Q
        /\ p_cu_payment_lp p = (catch_up_payment * (1 # 2))%Q
        /\ p_cu_closing p =
           (p_cu_opening p + p_cu_accrual p - p_cu_payment_gp p)%Q
        /\ (if Qgtb proceed (p_lp_payment p + catch_up_payment)%Q then
              p_post_gp p =
              ((proceed - p_lp_payment p - catch_up_payment)
               * carry_percent self)%Q
              /\ p_post_lp p =
                 ((proceed - p_lp_payment p - catch_up_payment)
                  * (1 - carry_percent self))%Q
            else p_post_gp p = 0%Q /\ p_post_lp p = 0%Q)
      else
        p_cu_payment_gp p = 0%Q /\ p_cu_payment_lp p = 0%Q
        /\ p_cu_closing p = (p_cu_opening p + p_cu_accrual p)%Q
        /\ p_post_gp p = 0%Q /\ p_post_lp p = 0%Q).

(** The call returns, raising nothing. *)
Definition returns {A : Type} (r : result A) : Prop := exists a, r = OK a.

(** The schedule dates stay where [datetime.date] can follow them: the fund
    starts after January of year 1 (the loops look one month back), every
    deployment falls in the years 1..9999 and every capital return in the
    years 1..9998 ([days_in_year] looks one year ahead). *)
Definition calendar_safe (self : ClosedEndFund) : bool :=
  match number_of_deployments self with
  | OK n =>
      (14 <=? year_month_num (fund_start_date self))
      && forallb
           (fun k =>
              in_calendar (deployment_month self k)
              && in_calendar (return_month self k)
              && (return_month self k <=? (MAXYEAR - 1) * 12 + 12))
           (range n)
  | Raise _ => false
  end.

(** The annual rates whose monthly rates are real numbers: the base of the
    twelfth root, [1 + rate], is not negative. *)
Definition real_rates (self : ClosedEndFund) : bool :=
  Qle_bool (- (1)) (annual_effective_irr self)
  && Qle_bool (- (1)) (annual_effective_irr_hurdle self).

(** The seven schedule generators that do not divide by
    [0.5 - carry_percent]. *)
Definition plain_schedules_return (pow_twelfth : Q -> Q)
  (self : ClosedEndFund) : Prop :=
  returns (generate_deployments self)
  /\ returns (generate_proceeds pow_twelfth self)
  /\ returns (generate_capital_returns self)
  /\ returns (generate_profits pow_twelfth self)
  /\ returns (generate_closing_invested_capital self)
  /\ returns (generate_fee_paying_capital self)
  /\ returns (generate_mgmt_fees self).

(** Totality as the specification states it: everything returns, except the
    waterfall at [carry_percent == 0.5], which divides by zero. *)
Definition schedule_generation_total (pow_twelfth : Q -> Q)
  (self : ClosedEndFund) : Prop :=
  plain_schedules_return pow_twelfth self
  /\ (~ (carry_percent self == 1 # 2)%Q ->
      returns (generate_proceeds_allocations_as_dict pow_twelfth self))
  /\ ((carry_percent self == 1 # 2)%Q ->
      generate_proceeds_allocations_as_dict pow_twelfth self
      = Raise ZeroDivisionError).

(** [fund1_args] with no month of deployment. *)
Definition zero_months_args : init_args :=
  {| arg_fund_name := "Fund1"%string;
     arg_fund_start_date := mkdate 2021 3 31;
     arg_deployment_start_date := mkdate 2021 6 30;
     arg_annual_effective_irr := 15 # 100;
     arg_committed_capital := 500000000;
     arg_annual_mgmt_fee_rate := 5 # 1000;
     arg_carry_percent := 2 # 10;
     arg_annual_effective_irr_hurdle := 1 # 10;
     arg_number_of_months_of_deployment := 0;
     arg_number_of_months_in_between_deployments := 3;
     arg_length_of_deployment_in_months := 36;
     arg_carry_catch_up := true |}.

(** [fund1_args] with a negative number of months of deployment. *)
Definition negative_months_args : init_args :=
  {| arg_fund_name := "Fund1"%string;
     arg_fund_start_date := mkdate 2021 3 31;
     arg_deployment_start_date := mkdate 2021 6 30;
     arg_annual_effective_irr := 15 # 100;
     arg_committed_capital := 500000000;
     arg_annual_mgmt_fee_rate := 5 # 1000;
     arg_carry_percent := 2 # 10;
     arg_annual_effective_irr_hurdle := 1 # 10;
     arg_number_of_months_of_deployment := -3;
     arg_number_of_months_in_between_deployments := 3;
     arg_length_of_deployment_in_months := 36;
     arg_carry_catch_up := true |}.

(** [fund1_args] started in the last years of the calendar. *)
Definition late_args : init_args :=
  {| arg_fund_name := "Fund1"%string;
     arg_fund_start_date := mkdate 9997 3 31;
     arg_deployment_start_date := mkdate 9997 6 30;
     arg_annual_effective_irr := 15 # 100;
     arg_committed_capital := 500000000;
     arg_annual_mgmt_fee_rate := 5 # 1000;
     arg_carry_percent := 2 # 10;
     arg_annual_effective_irr_hurdle := 1 # 10;
     arg_number_of_months_of_deployment := 36;
     arg_number_of_months_in_between_deployments := 3;
     arg_length_of_deployment_in_months := 36;
     arg_carry_catch_up := true |}.

(** [small_args] with a carry of one half. *)
Definition half_carry_args : init_args :=
  {| arg_fund_name := "Small"%string;
     arg_fund_start_date := mkdate 2021 3 31;
     arg_deployment_start_date := mkdate 2021 4 30;
     arg_annual_effective_irr := 15 # 100;
     arg_committed_capital := 100;
     arg_annual_mgmt_fee_rate := 5 # 1000;
     arg_carry_percent := 1 # 2;
     arg_annual_effective_irr_hurdle := 1 # 10;
     arg_number_of_months_of_deployment := 2;
     arg_number_of_months_in_between_deployments := 1;
     arg_length_of_deployment_in_months := 2;
     arg_carry_catch_up := true |}.

(** Each of the eleven waterfall schedules has the key list [l]. *)
Definition schedules_keyed_by (s : schedules) (l : list date) : Prop :=
  Dict.keys (lp_preferred_opening s) = l
  /\ Dict.keys (lp_preferred_irr_growth s) = l
  /\ Dict.keys (lp_preferred_payments s) = l
  /\ Dict.keys (lp_preferred_closing s) = l
  /\ Dict.keys (catch_up_opening s) = l
  /\ Dict.keys (catch_up_accruals s) = l
  /\ Dict.keys (catch_up_payments_gp_share s) = l
  /\ Dict.keys (catch_up_payments_lp_share s) = l
  /\ Dict.keys (catch_up_closing s) = l
  /\ Dict.keys (post_catch_up_payments_gp_share s) = l
  /\ Dict.keys (post_catch_up_payments_lp_share s) = l.

(** [small_args] with the carry catch-up switched off. *)
Definition no_catch_up_args : init_args :=
  {| arg_fund_name := "Small"%string;
     arg_fund_start_date := mkdate 2021 3 31;
     arg_deployment_start_date := mkdate 2021 4 30;
     arg_annual_effective_irr := 15 # 100;
     arg_committed_capital := 100;
     arg_annual_mgmt_fee_rate := 5 # 1000;
     arg_carry_percent := 2 # 10;
     arg_annual_effective_irr_hurdle := 1 # 10;
     arg_number_of_months_of_deployment := 2;
     arg_number_of_months_in_between_deployments := 1;
     arg_length_of_deployment_in_months := 2;
     arg_carry_catch_up := false |}.

(** The capital deployed less the capital returned at a date. *)
Definition net_flow (deployments capital_returns : Dict.t Q) (d : date) : Q :=
  (Dict.get_default deployments d 0 - Dict.get_default capital_returns d 0)%Q.

(** The sum of [f] over a list of dates. *)
Definition total (f : date -> Q) (l : list date) : Q :=
  fold_right (fun d acc => (f d + acc)%Q) 0%Q l.

(** [generate_fund_inputs_summary_dict]: the attributes of the fund under
    the names of the constructor's parameters. *)
Definition generate_fund_inputs_summary_dict (self : ClosedEndFund)
  : init_args :=
  {| arg_fund_name := fund_name self;
     arg_fund_start_date := fund_start_date self;
     arg_deployment_start_date := deployment_start_date self;
     arg_annual_effective_irr := annual_effective_irr self;
     arg_committed_capital := committed_capital self;
     arg_annual_mgmt_fee_rate := annual_mgmt_fee_rate self;
     arg_carry_percent := carry_percent self;
     arg_annual_effective_irr_hurdle := annual_effective_irr_hurdle self;
     arg_number_of_months_of_deployment :=
       number_of_months_of_deployment self;
     arg_number_of_months_in_between_deployments :=
       number_of_months_in_between_deployments self;
     arg_length_of_deployment_in_months :=
       length_of_deployment_in_months self;
     arg_carry_catch_up := carry_catch_up self |}.

(** [small_args] with no return on the deployments. *)
Definition zero_irr_args : init_args :=
  {| arg_fund_name := "Small"%string;
     arg_fund_start_date := mkdate 2021 3 31;
     arg_deployment_start_date := mkdate 2021 4 30;
     arg_annual_effective_irr := 0;
     arg_committed_capital := 100;
     arg_annual_mgmt_fee_rate := 5 # 1000;
     arg_carry_percent := 2 # 10;
     arg_annual_effective_irr_hurdle := 1 # 10;
     arg_number_of_months_of_deployment := 2;
     arg_number_of_months_in_between_deployments := 1;
     arg_length_of_deployment_in_months := 2;
     arg_carry_catch_up := true |}.


(** * Properties *)

(** ** The error monad and loops *)

Lemma bind_OK {A B : Type} (r : result A) (f : A -> result B) (b : B) :
  bind r f = OK b -> exists a, r = OK a /\ f a = OK b.
Proof.
  destruct r as [a|e]; simpl; intros H; [eauto | discriminate].
Qed.

Ltac inv_bind H :=
  let a := fresh "x" in
  let Ha := fresh "E" in
  apply bind_OK in H; destruct H as (a & Ha & H).

Lemma range_length (n : Z) : 0 <= n -> Z.of_nat (length (range n)) = n.
Proof.
  intros Hn. unfold range. rewrite length_map, length_seq. lia.
Qed.

Lemma range_In (n k : Z) : In k (range n) <-> 0 <= k < n.
Proof.
  unfold range. rewrite in_map_iff. split.
  - intros (i & <- & Hi). apply in_seq in Hi. lia.
  - intros Hk. exists (Z.to_nat k). split; [lia|]. apply in_seq. lia.
Qed.

Lemma range_nth (n : Z) (i : nat) :
  (Z.of_nat i < n) -> nth_error (range n) i = Some (Z.of_nat i).
Proof.
  intros Hi. unfold range.
  rewrite nth_error_map, nth_error_nth' with (d := 0%nat).
  - rewrite seq_nth by lia. reflexivity.
  - rewrite length_seq. lia.
Qed.

Lemma range_NoDup (n : Z) : NoDup (range n).
Proof.
  unfold range. apply Injective_map_NoDup.
  - intros a b. apply Nat2Z.inj.
  - apply seq_NoDup.
Qed.

Lemma hd_error_nth_error {A : Type} (l : list A) :
  hd_error l = nth_error l 0.
Proof. destruct l; reflexivity. Qed.

Lemma comprehension_OK {A B : Type} (f : A -> result B) (g : A -> B)
  (xs : list A) :
  (forall x, In x xs -> f x = OK (g x)) -> comprehension f xs = OK (map g xs).
Proof.
  induction xs as [|x r IH]; simpl; intros H; [reflexivity|].
  rewrite (H x) by (left; reflexivity). simpl.
  rewrite IH by (intros; apply H; right; assumption). reflexivity.
Qed.

Lemma for_each_total {A S : Type} (body : A -> S -> result S) (xs : list A) :
  (forall x s, In x xs -> exists s', body x s = OK s') ->
  forall s, exists s', for_each body xs s = OK s'.
Proof.
  induction xs as [|x r IH]; simpl; intros H s; [eauto|].
  destruct (H x s) as (s1 & E); [left; reflexivity|].
  rewrite E. simpl. apply IH. intros; apply H; right; assumption.
Qed.

(** ** Calendar arithmetic *)

Lemma decode_spec (i : Z) :
  1 <= snd (decode i) <= 12 /\ fst (decode i) * 12 + snd (decode i) = i.
Proof.
  unfold decode.
  destruct (i mod 12 =? 0) eqn:E; simpl.
  - apply Z.eqb_eq in E. pose proof (Z.div_mod i 12). lia.
  - apply Z.eqb_neq in E. pose proof (Z.div_mod i 12).
    pose proof (Z.mod_pos_bound i 12). lia.
Qed.

Lemma decode_encode (y m : Z) : 1 <= m <= 12 -> decode (y * 12 + m) = (y, m).
Proof.
  intros Hm. pose proof (decode_spec (y * 12 + m)) as [H1 H2].
  destruct (decode (y * 12 + m)) as [y' m']; simpl in *.
  f_equal; lia.
Qed.

Lemma monthrange_bounds (y m : Z) :
  1 <= m <= 12 -> 28 <= monthrange y m <= 31.
Proof.
  intros Hm. unfold monthrange.
  assert (m = 1 \/ m = 2 \/ m = 3 \/ m = 4 \/ m = 5 \/ m = 6 \/ m = 7
          \/ m = 8 \/ m = 9 \/ m = 10 \/ m = 11 \/ m = 12) as Hc by lia.
  destruct Hc as [->|[->|[->|[->|[->|[->|[->|[->|[->|[->|[->| ->]]]]]]]]]]];
    simpl; try lia.
  destruct (isleap y); lia.
Qed.

Lemma valid_date_fields (d : date) :
  valid_date d = true ->
  1 <= year d <= 9999 /\ 1 <= month d <= 12
  /\ 1 <= day d <= monthrange (year d) (month d).
Proof.
  unfold valid_date, valid_ymd, MINYEAR, MAXYEAR.
  rewrite !andb_true_iff, !Z.leb_le. lia.
Qed.

Lemma valid_ymd_iff (y m d : Z) :
  valid_ymd y m d = true <->
  1 <= y <= 9999 /\ 1 <= m <= 12 /\ 1 <= d <= monthrange y m.
Proof.
  unfold valid_ymd, MINYEAR, MAXYEAR.
  rewrite !andb_true_iff, !Z.leb_le. lia.
Qed.

Lemma valid_date_in_calendar (d : date) :
  valid_date d = true -> in_calendar (year_month_num d) = true.
Proof.
  intros H. apply valid_date_fields in H.
  unfold in_calendar, year_month_num, MAXYEAR.
  rewrite andb_true_iff, !Z.leb_le. lia.
Qed.

Lemma date_eqb_eq (a b : date) : date_eqb a b = true <-> a = b.
Proof.
  unfold date_eqb. rewrite !andb_true_iff, !Z.eqb_eq.
  destruct a, b; simpl. split.
  - intros [[-> ->] ->]. reflexivity.
  - intros H; inversion H; auto.
Qed.

Lemma date_eqb_refl (a : date) : date_eqb a a = true.
Proof. apply date_eqb_eq. reflexivity. Qed.

Lemma date_eqb_neq (a b : date) : date_eqb a b = false <-> a <> b.
Proof.
  rewrite <- date_eqb_eq. destruct (date_eqb a b); split; congruence.
Qed.

Lemma end_of_month_from_int_eq (i : Z) :
  end_of_month_from_int i =
  if in_calendar i then OK (month_end_of i) else Raise ValueError.
Proof.
  unfold end_of_month_from_int, month_end_of, new_date.
  pose proof (decode_spec i) as [Hm Hi].
  destruct (decode i) as [y m]; simpl in *.
  pose proof (monthrange_bounds y m Hm) as Hr.
  destruct (valid_ymd y m (monthrange y m)) eqn:V;
    destruct (in_calendar i) eqn:C; try reflexivity; exfalso.
  - apply valid_ymd_iff in V.
    unfold in_calendar, MAXYEAR in C.
    apply andb_false_iff in C. rewrite !Z.leb_gt in C. lia.
  - unfold in_calendar, MAXYEAR in C.
    apply andb_true_iff in C. rewrite !Z.leb_le in C.
    assert (valid_ymd y m (monthrange y m) = true) as V'
      by (apply valid_ymd_iff; lia).
    congruence.
Qed.

Lemma month_end_of_props (i : Z) :
  in_calendar i = true ->
  valid_date (month_end_of i) = true
  /\ year_month_num (month_end_of i) = i
  /\ is_month_end (month_end_of i) = true.
Proof.
  intros C. pose proof (decode_spec i) as [Hm Hi].
  unfold month_end_of, valid_date, year_month_num, is_month_end. simpl.
  pose proof (monthrange_bounds (fst (decode i)) (snd (decode i)) Hm).
  unfold in_calendar, MAXYEAR in C.
  apply andb_true_iff in C. rewrite !Z.leb_le in C.
  repeat split; [apply valid_ymd_iff; lia | lia | apply Z.eqb_refl].
Qed.

Lemma end_of_month_from_int_OK (i : Z) (d : date) :
  end_of_month_from_int i = OK d ->
  in_calendar i = true /\ d = month_end_of i.
Proof.
  rewrite end_of_month_from_int_eq.
  destruct (in_calendar i); intros H; inversion H; auto.
Qed.

(** With the flag set, [add_n_months] is the month-end of the shifted
    year-month number; both raise [ValueError] outside the calendar. *)
Lemma add_n_months_true (d : date) (n : Z) :
  valid_date d = true ->
  add_n_months d n true = end_of_month_from_int (year_month_num d + n).
Proof.
  intros V. apply valid_date_fields in V.
  unfold add_n_months.
  rewrite (end_of_month_from_int_eq (year_month_num d + n)).
  pose proof (decode_spec (year_month_num d + n)) as [Hm Hi].
  unfold month_end_of.
  destruct (decode (year_month_num d + n)) as [y m]; simpl in *.
  pose proof (monthrange_bounds y m Hm) as Hr.
  unfold new_date.
  destruct (valid_ymd y m (Z.min (day d) (monthrange y m))) eqn:W; simpl.
  - apply valid_ymd_iff in W.
    unfold end_of_month_from_date, year_month_num at 1. simpl.
    rewrite end_of_month_from_int_eq. rewrite Hi.
    unfold month_end_of. rewrite <- Hi at 2 3 4 5.
    rewrite decode_encode by lia. reflexivity.
  - destruct (in_calendar (year_month_num d + n)) eqn:C; [exfalso|reflexivity].
    unfold in_calendar, MAXYEAR in C.
    apply andb_true_iff in C. rewrite !Z.leb_le in C.
    assert (valid_ymd y m (Z.min (day d) (monthrange y m)) = true) as W'
      by (apply valid_ymd_iff; lia).
    congruence.
Qed.

Lemma add_n_months_false_OK (d r : date) (n : Z) :
  valid_date d = true ->
  add_n_months d n false = OK r ->
  valid_date r = true /\ year_month_num r = year_month_num d + n.
Proof.
  intros V. unfold add_n_months.
  pose proof (decode_spec (year_month_num d + n)) as [Hm Hi].
  destruct (decode (year_month_num d + n)) as [y m]; simpl in *.
  unfold new_date.
  destruct (valid_ymd y m (Z.min (day d) (monthrange y m))) eqn:W; simpl;
    intros H; inversion H; subst r.
  split; [exact W | exact Hi].
Qed.

Lemma add_n_months_false_Raise (d : date) (n : Z) (e : exn) :
  valid_date d = true ->
  add_n_months d n false = Raise e ->
  e = ValueError /\ in_calendar (year_month_num d + n) = false.
Proof.
  intros V. apply valid_date_fields in V. unfold add_n_months.
  pose proof (decode_spec (year_month_num d + n)) as [Hm Hi].
  destruct (decode (year_month_num d + n)) as [y m]; simpl in *.
  pose proof (monthrange_bounds y m Hm) as Hr.
  unfold new_date.
  destruct (valid_ymd y m (Z.min (day d) (monthrange y m))) eqn:W; simpl;
    intros H; inversion H; subst e.
  split; [reflexivity|].
  destruct (in_calendar (year_month_num d + n)) eqn:C; [exfalso|reflexivity].
  unfold in_calendar, MAXYEAR in C.
  apply andb_true_iff in C. rewrite !Z.leb_le in C.
  assert (valid_ymd y m (Z.min (day d) (monthrange y m)) = true) as W'
    by (apply valid_ymd_iff; lia).
  congruence.
Qed.

Lemma end_of_month_from_date_OK (d : date) :
  valid_date d = true ->
  end_of_month_from_date d = OK (month_end_of (year_month_num d)).
Proof.
  intros V. unfold end_of_month_from_date.
  rewrite end_of_month_from_int_eq, valid_date_in_calendar by assumption.
  reflexivity.
Qed.

Lemma month_end_of_year_month_num (d : date) :
  valid_date d = true ->
  year_month_num (month_end_of (year_month_num d)) = year_month_num d.
Proof.
  intros V. apply month_end_of_props, valid_date_in_calendar, V.
Qed.

Lemma date_ltb_year_month_num (x y : date) :
  valid_date x = true -> valid_date y = true ->
  year_month_num x < year_month_num y -> date_ltb x y = true.
Proof.
  intros Vx Vy. apply valid_date_fields in Vx, Vy.
  unfold year_month_num, date_ltb. intros H.
  destruct (year x <? year y) eqn:E1; [reflexivity|].
  apply Z.ltb_ge in E1.
  assert (year x = year y) as Ey by lia.
  assert (month x < month y) as Em by lia.
  apply Z.eqb_eq in Ey. apply Z.ltb_lt in Em. rewrite Ey, Em. reflexivity.
Qed.

(** C7.  For every date [d] and every integer [n], snapping [d] to its
    month-end and then adding [n] months with the end-of-month flag set gives
    the same outcome as adding [n] months without the flag and snapping the
    result: the same date, or [ValueError] on both sides when the shifted
    month lies outside the years 1..9999. *)
Theorem add_n_months_end_of_month_commute (d : date) (n : Z)
  (V : valid_date d = true) :
  (e <- end_of_month_from_date d ;; add_n_months e n true)
  = (r <- add_n_months d n false ;; end_of_month_from_date r).
Proof.
  rewrite end_of_month_from_date_OK by assumption. simpl.
  pose proof (month_end_of_props _ (valid_date_in_calendar d V))
    as (Ve & Ye & _).
  rewrite add_n_months_true, Ye by assumption.
  destruct (add_n_months d n false) as [r|e] eqn:E; simpl.
  - apply add_n_months_false_OK in E; [|assumption].
    destruct E as [_ Yr]. unfold end_of_month_from_date. rewrite Yr.
    reflexivity.
  - apply add_n_months_false_Raise in E; [|assumption].
    destruct E as [-> C]. rewrite end_of_month_from_int_eq, C. reflexivity.
Qed.

Lemma add_n_months_end_of_month_commute_witness :
  valid_date (mkdate 2024 1 30) = true
  /\ (e <- end_of_month_from_date (mkdate 2024 1 30) ;; add_n_months e 1 true)
     = OK (mkdate 2024 2 29)
  /\ (r <- add_n_months (mkdate 2024 1 30) 1 false ;; end_of_month_from_date r)
     = OK (mkdate 2024 2 29).
Proof.
  split; [reflexivity|].
  split.
  - reflexivity.
  - rewrite <- (add_n_months_end_of_month_commute (mkdate 2024 1 30) 1);
      reflexivity.
Defined.

Lemma generate_monthly_date_series_OK (a b : date) :
  valid_date a = true -> valid_date b = true ->
  generate_monthly_date_series a b =
  OK (map (fun diff => month_end_of (year_month_num a + diff))
        (range (number_of_months_diff a b + 1))).
Proof.
  intros Va Vb. unfold generate_monthly_date_series.
  apply comprehension_OK. intros k Hk. apply range_In in Hk.
  rewrite end_of_month_from_int_eq.
  apply valid_date_in_calendar in Va, Vb.
  unfold number_of_months_diff in Hk.
  unfold in_calendar in *. rewrite andb_true_iff, !Z.leb_le in Va, Vb.
  replace ((13 <=? year_month_num a + k)
           && (year_month_num a + k <=? MAXYEAR * 12 + 12)) with true;
    [reflexivity|].
  symmetry. rewrite andb_true_iff, !Z.leb_le. lia.
Qed.

(** C6 (amended).  For every pair of dates [a], [b] with
    [months_between a b >= 0], [generate_monthly_date_series a b] returns a
    sequence of month-end dates of length [months_between a b + 1], starting
    at the month-end of [a]'s month, ending at the month-end of [b]'s month,
    each element exactly one month after the one before. *)
Theorem generate_monthly_date_series_spec (a b : date)
  (Va : valid_date a = true) (Vb : valid_date b = true)
  (Hab : 0 <= number_of_months_diff a b) :
  month_end_series_spec a b.
Proof.
  set (n := number_of_months_diff a b + 1).
  set (g := fun diff => month_end_of (year_month_num a + diff)).
  assert (Hn : 1 <= n) by (unfold n; lia).
  assert (Hcal : forall k, 0 <= k < n ->
            in_calendar (year_month_num a + k) = true).
  { intros k Hk. pose proof (valid_date_in_calendar a Va) as Ca.
    pose proof (valid_date_in_calendar b Vb) as Cb.
    unfold n, number_of_months_diff in Hk.
    unfold in_calendar in *. rewrite andb_true_iff, !Z.leb_le in *. lia. }
  assert (Hlen : Z.of_nat (length (map g (range n))) = n)
    by (rewrite length_map; apply range_length; lia).
  assert (Hnth : forall i, Z.of_nat i < n ->
            nth_error (map g (range n)) i = Some (g (Z.of_nat i))).
  { intros i Hi. rewrite nth_error_map, range_nth by assumption. reflexivity. }
  exists (map g (range n)), (month_end_of (year_month_num a)),
    (month_end_of (year_month_num b)).
  split; [apply generate_monthly_date_series_OK; assumption|].
  split; [exact Hlen|].
  split.
  { intros d Hd. apply in_map_iff in Hd. destruct Hd as (k & <- & Hk).
    apply range_In in Hk. unfold g.
    destruct (month_end_of_props _ (Hcal k Hk)) as (V & _ & M). auto. }
  split; [apply end_of_month_from_date_OK; assumption|].
  split.
  { rewrite hd_error_nth_error, Hnth by lia.
    unfold g. simpl. rewrite Z.add_0_r. reflexivity. }
  split; [apply end_of_month_from_date_OK; assumption|].
  split.
  { assert (Z.of_nat (length (map g (range n)) - 1) = n - 1) as Hl by lia.
    rewrite Hnth by lia. rewrite Hl. unfold g. f_equal. f_equal.
    unfold n, number_of_months_diff. lia. }
  intros i x y Hx Hy.
  assert (Z.of_nat (S i) < n) as Hi.
  { apply Z.lt_le_trans with (Z.of_nat (length (map g (range n)))); [|lia].
    apply Nat2Z.inj_lt. apply nth_error_Some. congruence. }
  assert (x = g (Z.of_nat i)) as ->
    by (rewrite Hnth in Hx by lia; congruence).
  assert (y = g (Z.of_nat i + 1)) as ->.
  { rewrite Hnth in Hy by lia. inversion Hy. f_equal. lia. }
  unfold g.
  destruct (month_end_of_props _ (Hcal (Z.of_nat i) ltac:(lia)))
    as (V1 & Y1 & _).
  destruct (month_end_of_props _ (Hcal (Z.of_nat i + 1) ltac:(lia)))
    as (V2 & Y2 & _).
  split.
  - apply date_ltb_year_month_num; try assumption. rewrite Y1, Y2. lia.
  - rewrite Y1, Y2. lia.
Qed.

Lemma generate_monthly_date_series_spec_witness :
  generate_monthly_date_series (mkdate 2021 11 15) (mkdate 2022 2 3)
  = OK [mkdate 2021 11 30; mkdate 2021 12 31; mkdate 2022 1 31;
        mkdate 2022 2 28]
  /\ month_end_series_spec (mkdate 2021 11 15) (mkdate 2022 2 3).
Proof.
  split; [reflexivity|].
  apply generate_monthly_date_series_spec; [reflexivity|reflexivity|].
  vm_compute. discriminate.
Defined.

(** C6, as stated, fails when [b]'s month is two or more months before
    [a]'s: the series is empty, so its length is not
    [months_between a b + 1] and it has no first or last element. *)
Lemma generate_monthly_date_series_reversed :
  generate_monthly_date_series (mkdate 2021 3 31) (mkdate 2021 1 31) = OK []
  /\ number_of_months_diff (mkdate 2021 3 31) (mkdate 2021 1 31) + 1 = -1
  /\ ~ month_end_series_spec (mkdate 2021 3 31) (mkdate 2021 1 31).
Proof.
  split; [reflexivity|]. split; [reflexivity|].
  intros (l & f & e & H & Hlen & _).
  vm_compute in H. inversion H; subst l. vm_compute in Hlen. discriminate.
Qed.

(** ** Construction *)

Lemma end_of_month_from_date_is_month_end (d : date) :
  valid_date d = true ->
  date_eqb (month_end_of (year_month_num d)) d = is_month_end d.
Proof.
  intros V. apply valid_date_fields in V.
  unfold month_end_of, year_month_num, date_eqb, is_month_end.
  rewrite decode_encode by lia. simpl.
  rewrite !Z.eqb_refl. simpl. apply Z.eqb_sym.
Qed.

Lemma is_month_end_fixed (d : date) :
  valid_date d = true -> is_month_end d = true ->
  month_end_of (year_month_num d) = d.
Proof.
  intros V M. apply date_eqb_eq.
  rewrite end_of_month_from_date_is_month_end; assumption.
Qed.

Lemma Qle_bool_Qgtb (x y : Q) : Qle_bool x y = negb (Qgtb x y).
Proof.
  unfold Qgtb. destruct (Qle_bool x y) eqn:E.
  - apply Qle_bool_iff in E. destruct (x ?= y)%Q eqn:C; try reflexivity.
    apply Qgt_alt in C. lra.
  - destruct (x ?= y)%Q eqn:C; try reflexivity; exfalso.
    + apply Qeq_alt in C. assert (Qle_bool x y = true) as E'
        by (apply Qle_bool_iff; lra). congruence.
    + apply Qlt_alt in C. assert (Qle_bool x y = true) as E'
        by (apply Qle_bool_iff; lra). congruence.
Qed.

(** The constructor on a nonzero interval: the specification's function. *)
Lemma init_nonzero_interval (a : init_args) :
  valid_args a = true ->
  arg_number_of_months_in_between_deployments a <> 0 ->
  init a = construction_spec a.
Proof.
  unfold valid_args. rewrite andb_true_iff. intros [Vf Vd] Hz.
  unfold init, construction_spec, first_violated_check, date_leb.
  rewrite negb_involutive.
  destruct (date_ltb (arg_deployment_start_date a) (arg_fund_start_date a));
    [reflexivity|].
  rewrite !end_of_month_from_date_OK by assumption. simpl.
  rewrite !end_of_month_from_date_is_month_end by assumption.
  destruct (is_month_end (arg_fund_start_date a)) eqn:Mf; [|reflexivity].
  destruct (is_month_end (arg_deployment_start_date a)) eqn:Md; [|reflexivity].
  simpl. unfold py_mod.
  apply Z.eqb_neq in Hz. rewrite Hz. simpl. unfold divisible.
  destruct (arg_number_of_months_of_deployment a
            mod arg_number_of_months_in_between_deployments a =? 0);
    [|reflexivity].
  simpl. rewrite Qle_bool_Qgtb.
  destruct (Qgtb (arg_committed_capital a) 0); [|reflexivity].
  simpl. unfold constructed.
  rewrite !is_month_end_fixed by assumption. reflexivity.
Qed.




(** C8.  With a zero interval between deployments the constructor never
    returns an engine and never raises the [ClosedEndFundError] of the
    divisibility check: once the three date checks before it pass, the
    check's own [months % 0] raises [ZeroDivisionError]. *)
Theorem init_zero_interval (a : init_args)
  (V : valid_args a = true)
  (Hz : arg_number_of_months_in_between_deployments a = 0) :
  (forall self, init a <> OK self)
  /\ (forall m k,
        init a <> Raise (ClosedEndFundError (NotWholeNumberOfDeployments m k)))
  /\ (date_leb (arg_fund_start_date a) (arg_deployment_start_date a) = true ->
      is_month_end (arg_fund_start_date a) = true ->
      is_month_end (arg_deployment_start_date a) = true ->
      init a = Raise ZeroDivisionError).
Proof.
  unfold valid_args in V. apply andb_true_iff in V. destruct V as [Vf Vd].
  unfold init, date_leb.
  destruct (date_ltb (arg_deployment_start_date a) (arg_fund_start_date a)).
  { repeat split; try discriminate. }
  rewrite !end_of_month_from_date_OK by assumption. simpl.
  rewrite !end_of_month_from_date_is_month_end by assumption.
  destruct (is_month_end (arg_fund_start_date a)).
  2:{ repeat split; try discriminate. }
  destruct (is_month_end (arg_deployment_start_date a)).
  2:{ repeat split; try discriminate. }
  simpl. unfold py_mod. rewrite Hz. simpl.
  repeat split; try discriminate.
Qed.

Lemma init_zero_interval_witness :
  valid_args zero_interval_args = true
  /\ init zero_interval_args = Raise ZeroDivisionError.
Proof.
  split; [reflexivity|].
  apply (init_zero_interval zero_interval_args); reflexivity.
Defined.

(** ** Dictionaries *)

Lemma get_update_same {V : Type} (m : Dict.t V) (k : date) (v : V) :
  Dict.get (Dict.update m k v) k = Some v.
Proof.
  induction m as [|[k' v'] r IH]; simpl.
  - rewrite date_eqb_refl. reflexivity.
  - destruct (date_eqb k' k) eqn:E; simpl; rewrite E; auto.
Qed.

Lemma get_update_other {V : Type} (m : Dict.t V) (k k' : date) (v : V) :
  k <> k' -> Dict.get (Dict.update m k' v) k = Dict.get m k.
Proof.
  intros N. induction m as [|[k0 v0] r IH]; simpl.
  - assert (date_eqb k' k = false) as ->
      by (apply date_eqb_neq; congruence).
    reflexivity.
  - destruct (date_eqb k0 k') eqn:E; simpl.
    + apply date_eqb_eq in E. subst k0.
      assert (date_eqb k' k = false) as ->
        by (apply date_eqb_neq; congruence).
      reflexivity.
    + rewrite IH. reflexivity.
Qed.

Lemma get_default_update_same {V : Type} (m : Dict.t V) (k : date) (v x : V) :
  Dict.get_default (Dict.update m k v) k x = v.
Proof. unfold Dict.get_default. rewrite get_update_same. reflexivity. Qed.

Lemma update_fresh {V : Type} (m : Dict.t V) (k : date) (v : V) :
  Dict.get m k = None -> Dict.update m k v = m ++ [(k, v)].
Proof.
  induction m as [|[k' v'] r IH]; simpl; intros H; [reflexivity|].
  destruct (date_eqb k' k); [discriminate|]. rewrite IH by assumption.
  reflexivity.
Qed.

Lemma get_None_not_In {V : Type} (m : Dict.t V) (k : date) :
  Dict.get m k = None <-> ~ In k (Dict.keys m).
Proof.
  induction m as [|[k' v'] r IH]; simpl.
  - tauto.
  - destruct (date_eqb k' k) eqn:E.
    + apply date_eqb_eq in E. split; [discriminate|tauto].
    + apply date_eqb_neq in E. rewrite IH. tauto.
Qed.

Lemma get_In {V : Type} (m : Dict.t V) (k : date) :
  In k (Dict.keys m) -> exists v, Dict.get m k = Some v.
Proof.
  intros H. destruct (Dict.get m k) eqn:E; [eauto|].
  apply get_None_not_In in E. contradiction.
Qed.

Lemma get_Some_In {V : Type} (m : Dict.t V) (k : date) (v : V) :
  Dict.get m k = Some v -> In (k, v) m.
Proof.
  induction m as [|[k' v'] r IH]; simpl; [discriminate|].
  destruct (date_eqb k' k) eqn:E.
  - apply date_eqb_eq in E. intros H; inversion H; subst. left; reflexivity.
  - intros H. right. auto.
Qed.

(** A loop that stores one fresh key per element builds the dictionary of
    its elements, in order. *)
Lemma for_each_build {A V : Type} (body : A -> Dict.t V -> result (Dict.t V))
  (key : A -> date) (val : A -> V) (xs : list A) :
  (forall x m, In x xs -> body x m = OK (Dict.update m (key x) (val x))) ->
  NoDup (map key xs) ->
  forall m0, (forall x, In x xs -> ~ In (key x) (Dict.keys m0)) ->
  for_each body xs m0 = OK (m0 ++ map (fun x => (key x, val x)) xs).
Proof.
  induction xs as [|x r IH]; simpl; intros Hb Hnd m0 Hm0.
  - rewrite app_nil_r. reflexivity.
  - rewrite Hb by (left; reflexivity). simpl.
    rewrite update_fresh by (apply get_None_not_In, Hm0; left; reflexivity).
    inversion Hnd as [|? ? Hx Hr]; subst.
    rewrite IH.
    + rewrite <- app_assoc. reflexivity.
    + intros; apply Hb; right; assumption.
    + assumption.
    + intros y Hy. unfold Dict.keys. rewrite map_app, in_app_iff. simpl.
      intros [H|[H|[]]].
      * apply (Hm0 y); [right; assumption | exact H].
      * apply Hx. rewrite H. apply in_map. assumption.
Qed.

(** ** Validated configs *)

Lemma init_OK_inv (a : init_args) (self : ClosedEndFund) :
  init a = OK self ->
  valid_date (fund_start_date self) = true
  /\ valid_date (deployment_start_date self) = true
  /\ is_month_end (fund_start_date self) = true
  /\ is_month_end (deployment_start_date self) = true
  /\ date_leb (fund_start_date self) (deployment_start_date self) = true
  /\ number_of_months_in_between_deployments self <> 0
  /\ number_of_months_of_deployment self
     mod number_of_months_in_between_deployments self = 0
  /\ (0 < committed_capital self)%Q.
Proof.
  unfold init. intros H.
  destruct (date_ltb (arg_deployment_start_date a) (arg_fund_start_date a))
    eqn:L; [discriminate|].
  inv_bind H. destruct (negb (date_eqb x (arg_fund_start_date a))) eqn:B1;
    [discriminate|].
  inv_bind H. destruct (negb (date_eqb x0 (arg_deployment_start_date a)))
    eqn:B2; [discriminate|].
  inv_bind H. destruct (negb (x1 =? 0)) eqn:B3; [discriminate|].
  destruct (Qle_bool (arg_committed_capital a) 0) eqn:B4; [discriminate|].
  inv_bind H. inv_bind H. inversion H; subst self; clear H. simpl.
  apply negb_false_iff, date_eqb_eq in B1, B2. subst x x0.
  apply negb_false_iff, Z.eqb_eq in B3. subst x1.
  rewrite E in E2. inversion E2; subst x2.
  rewrite E0 in E3. inversion E3; subst x3.
  apply end_of_month_from_int_OK in E, E0.
  destruct E as [C1 D1], E0 as [C2 D2].
  destruct (month_end_of_props _ C1) as (V1 & _ & M1).
  destruct (month_end_of_props _ C2) as (V2 & _ & M2).
  rewrite <- D1 in V1, M1. rewrite <- D2 in V2, M2.
  unfold py_mod in E1.
  destruct (arg_number_of_months_in_between_deployments a =? 0) eqn:Z0;
    [discriminate|].
  apply Z.eqb_neq in Z0.
  assert (arg_number_of_months_of_deployment a
          mod arg_number_of_months_in_between_deployments a = 0) as E1'
    by congruence.
  repeat split; try assumption.
  - unfold date_leb. rewrite L. reflexivity.
  - rewrite Qle_bool_Qgtb in B4. apply negb_false_iff in B4.
    unfold Qgtb in B4.
    destruct (arg_committed_capital a ?= 0)%Q eqn:C; try discriminate.
    apply Qgt_alt in C. exact C.
Qed.

Lemma inject_Z_nonzero (n : Z) : n <> 0 -> Qeq_bool (inject_Z n) 0 = false.
Proof.
  intros H. destruct (Qeq_bool (inject_Z n) 0) eqn:E; [|reflexivity].
  apply Qeq_bool_iff in E. unfold Qeq, inject_Z in E. simpl in E. lia.
Qed.

Lemma fold_left_Qplus_const {A : Type} (f : A -> Q) (v : Q) (l : list A) :
  (forall x, In x l -> f x = v) ->
  forall acc,
    (fold_left Qplus (map f l) acc == acc + inject_Z (Z.of_nat (length l)) * v)%Q.
Proof.
  induction l as [|x r IH]; intros Hf acc.
  - simpl. change (inject_Z 0) with 0%Q. ring.
  - cbn [map fold_left length]. rewrite IH by (intros; apply Hf; right; assumption).
    rewrite (Hf x) by (left; reflexivity).
    rewrite Nat2Z.inj_succ. unfold Z.succ. rewrite inject_Z_plus.
    change (inject_Z 1) with 1%Q. ring.
Qed.

(** ** Deployments, capital returns and proceeds *)

Lemma month_end_of_inj (i j : Z) :
  in_calendar i = true -> in_calendar j = true ->
  month_end_of i = month_end_of j -> i = j.
Proof.
  intros Ci Cj H.
  destruct (month_end_of_props i Ci) as (_ & Yi & _).
  destruct (month_end_of_props j Cj) as (_ & Yj & _).
  congruence.
Qed.

Lemma add_n_months_true_OK (d : date) (n : Z) :
  valid_date d = true -> in_calendar (year_month_num d + n) = true ->
  add_n_months d n true = OK (month_end_of (year_month_num d + n)).
Proof.
  intros V C. rewrite add_n_months_true, end_of_month_from_int_eq, C by assumption.
  reflexivity.
Qed.

Lemma NoDup_map_month_end_of (f : Z -> Z) (l : list Z) :
  (forall k, In k l -> in_calendar (f k) = true) ->
  (forall j k, In j l -> In k l -> f j = f k -> j = k) ->
  NoDup l -> NoDup (map (fun k => month_end_of (f k)) l).
Proof.
  intros Hc Hi Hn. apply Injective_map_NoDup_in; [|assumption].
  intros j k Hj Hk E. apply Hi; try assumption.
  apply month_end_of_inj; auto.
Qed.

Lemma generate_deployments_OK (self : ClosedEndFund) (n : Z) :
  valid_date (deployment_start_date self) = true ->
  number_of_deployments self = OK n ->
  1 <= n ->
  (forall k, 0 <= k < n -> in_calendar (deployment_month self k) = true) ->
  generate_deployments self =
  OK (map (fun k => (month_end_of (deployment_month self k),
                     (committed_capital self / inject_Z n)%Q)) (range n)).
Proof.
  intros V Hn Hpos Hcal. unfold generate_deployments. rewrite Hn. simpl.
  unfold py_div. rewrite inject_Z_nonzero by lia. simpl.
  unfold number_of_deployments in Hn.
  destruct (number_of_months_in_between_deployments self =? 0) eqn:Z0;
    [discriminate|]. apply Z.eqb_neq in Z0.
  rewrite (for_each_build _ (fun k => month_end_of (deployment_month self k))
             (fun _ => (committed_capital self / inject_Z n)%Q)).
  - reflexivity.
  - intros k m Hk. apply range_In in Hk.
    rewrite add_n_months_true_OK; [reflexivity | assumption |].
    apply Hcal. assumption.
  - apply NoDup_map_month_end_of.
    + intros k Hk. apply Hcal, range_In, Hk.
    + unfold deployment_month. intros j k _ _ E.
      apply Z.mul_cancel_r with (p := number_of_months_in_between_deployments self);
        [assumption | lia].
    + apply range_NoDup.
  - simpl. tauto.
Qed.




(** ** The waterfall loop *)

Lemma for_each_stable {A St : Type} (body : A -> St -> result St)
  (keep : A -> Prop) (P : St -> Prop) :
  (forall x s s', keep x -> body x s = OK s' -> P s -> P s') ->
  forall xs s s',
    (forall x, In x xs -> keep x) -> for_each body xs s = OK s' ->
    P s -> P s'.
Proof.
  intros Hst. induction xs as [|x r IH]; simpl; intros s s' Hk H Hp.
  - inversion H; subst; assumption.
  - inv_bind H. apply (IH x0 s'); auto. apply (Hst x s x0); auto.
Qed.

(** What a turn records at its own key survives the later turns, when the
    keys are distinct. *)
Lemma for_each_rows {St : Type} (body : date -> St -> result St)
  (P : date -> St -> Prop) :
  (forall d s s', body d s = OK s' -> P d s') ->
  (forall d d' s s', d <> d' -> body d' s = OK s' -> P d s -> P d s') ->
  forall ds s s',
    NoDup ds -> for_each body ds s = OK s' ->
    forall d, In d ds -> P d s'.
Proof.
  intros Hsame Hother. induction ds as [|x r IH]; simpl; intros s s' Hnd H d Hd.
  - contradiction.
  - inv_bind H. inversion Hnd as [|? ? Hx Hr]; subst.
    destruct Hd as [<-|Hd].
    + apply (for_each_stable body (fun y => x <> y) (P x)) with (xs := r) (s := x0);
        eauto.
      intros y Hy ->. contradiction.
    + apply (IH x0 s'); assumption.
Qed.

(** The first turn, and every pair of successive turns. *)
Lemma for_each_adjacent {St : Type} (body : date -> St -> result St)
  (R : date -> date -> Prop) (P2 : date -> date -> St -> Prop) :
  (forall x y s1 s2 s3,
     R x y -> x <> y -> body x s1 = OK s2 -> body y s2 = OK s3 -> P2 x y s3) ->
  (forall x y z s s',
     z <> x -> z <> y -> body z s = OK s' -> P2 x y s -> P2 x y s') ->
  forall ds s s',
    NoDup ds -> for_each body ds s = OK s' ->
    forall i x y,
      nth_error ds i = Some x -> nth_error ds (S i) = Some y -> R x y ->
      P2 x y s'.
Proof.
  intros Hstep Hother. induction ds as [|a r IH]; intros s s' Hnd H i x y Hx Hy Hr.
  - destruct i; discriminate.
  - simpl in H. inv_bind H. inversion Hnd as [|? ? Ha Hnr]; subst.
    destruct i as [|i].
    + simpl in Hx, Hy. inversion Hx; subst a; clear Hx.
      destruct r as [|b r']; [discriminate|].
      simpl in Hy. inversion Hy; subst b; clear Hy.
      simpl in H. inv_bind H.
      inversion Hnr as [|? ? Hb Hnr']; subst.
      apply (for_each_stable body (fun z => z <> x /\ z <> y) (P2 x y))
        with (xs := r') (s := x1); auto.
      * intros z s1 s2 [Hz1 Hz2]. apply Hother; assumption.
      * intros z Hz. split; intros ->.
        -- apply Ha. right. assumption.
        -- contradiction.
      * apply (Hstep x y s x0 x1); auto.
        intros ->. apply Ha. left. reflexivity.
    + simpl in Hx, Hy. apply (IH x0 s' Hnr H i x y); assumption.
Qed.

Lemma period_at_fields (s : schedules) (d : date) (p : period) :
  period_at s d = Some p ->
  Dict.get (lp_preferred_opening s) d = Some (p_lp_opening p)
  /\ Dict.get (lp_preferred_irr_growth s) d = Some (p_lp_growth p)
  /\ Dict.get (lp_preferred_payments s) d = Some (p_lp_payment p)
  /\ Dict.get (lp_preferred_closing s) d = Some (p_lp_closing p)
  /\ Dict.get (catch_up_opening s) d = Some (p_cu_opening p)
  /\ Dict.get (catch_up_accruals s) d = Some (p_cu_accrual p)
  /\ Dict.get (catch_up_payments_gp_share s) d = Some (p_cu_payment_gp p)
  /\ Dict.get (catch_up_payments_lp_share s) d = Some (p_cu_payment_lp p)
  /\ Dict.get (catch_up_closing s) d = Some (p_cu_closing p)
  /\ Dict.get (post_catch_up_payments_gp_share s) d = Some (p_post_gp p)
  /\ Dict.get (post_catch_up_payments_lp_share s) d = Some (p_post_lp p).
Proof.
  unfold period_at.
  repeat match goal with
         | |- context [match Dict.get ?m d with _ => _ end] =>
             destruct (Dict.get m d); [|discriminate]
         end.
  intros H; inversion H; subst p; simpl. repeat split; reflexivity.
Qed.

Lemma py_min_spec (a b : Q) :
  (py_min a b <= a /\ py_min a b <= b
   /\ (py_min a b = a \/ py_min a b = b))%Q.
Proof.
  unfold py_min. destruct (b ?= a)%Q eqn:C.
  - apply Qeq_alt in C. repeat split; try lra. left; reflexivity.
  - apply Qlt_alt in C. repeat split; try lra. right; reflexivity.
  - apply Qgt_alt in C. repeat split; try lra. left; reflexivity.
Qed.

Lemma Qgtb_true (a b : Q) : Qgtb a b = true <-> (b < a)%Q.
Proof.
  unfold Qgtb. destruct (a ?= b)%Q eqn:C.
  - apply Qeq_alt in C. split; [discriminate | lra].
  - apply Qlt_alt in C. split; [discriminate | lra].
  - apply Qgt_alt in C. tauto.
Qed.

Lemma Qgtb_false (a b : Q) : Qgtb a b = false <-> (a <= b)%Q.
Proof.
  destruct (Qgtb a b) eqn:G.
  - apply Qgtb_true in G. split; [discriminate | lra].
  - split; [|reflexivity]. intros _.
    destruct (Qlt_le_dec b a) as [L|L]; [|exact L].
    apply Qgtb_true in L. congruence.
Qed.

Lemma comprehension_inv {A B : Type} (f : A -> result B) (g : A -> B)
  (P : A -> Prop) (xs : list A) (ys : list B) :
  (forall x y, f x = OK y -> y = g x /\ P x) ->
  comprehension f xs = OK ys ->
  ys = map g xs /\ forall x, In x xs -> P x.
Proof.
  intros Hf. revert ys. induction xs as [|x r IH]; simpl; intros ys H.
  - inversion H. split; [reflexivity | contradiction].
  - inv_bind H. inv_bind H. inversion H; subst ys.
    destruct (Hf _ _ E) as [-> Px]. destruct (IH _ E0) as [-> Pr].
    split; [reflexivity|]. intros y [<-|Hy]; auto.
Qed.

Lemma generate_monthly_date_series_inv (a b : date) (l : list date) :
  generate_monthly_date_series a b = OK l ->
  l = map (fun diff => month_end_of (year_month_num a + diff))
        (range (number_of_months_diff a b + 1))
  /\ forall diff, In diff (range (number_of_months_diff a b + 1)) ->
       in_calendar (year_month_num a + diff) = true.
Proof.
  unfold generate_monthly_date_series.
  apply comprehension_inv. intros x y H.
  apply end_of_month_from_int_OK in H. tauto.
Qed.

(** The dates of a month-end series are distinct [datetime.date] month-ends,
    each the preceding month-end of its successor. *)
Lemma month_end_series_props (a b : date) (l : list date) :
  generate_monthly_date_series a b = OK l ->
  NoDup l
  /\ (forall d, In d l -> valid_date d = true /\ is_month_end d = true)
  /\ (forall i x y,
        nth_error l i = Some x -> nth_error l (S i) = Some y ->
        add_n_months y (-1) true = OK x).
Proof.
  intros H. apply generate_monthly_date_series_inv in H.
  destruct H as [-> Hcal].
  set (n := number_of_months_diff a b + 1) in *.
  split; [|split].
  - apply NoDup_map_month_end_of.
    + assumption.
    + intros; lia.
    + apply range_NoDup.
  - intros d Hd. apply in_map_iff in Hd. destruct Hd as (k & <- & Hk).
    destruct (month_end_of_props _ (Hcal k Hk)) as (V & _ & M). auto.
  - intros i x y Hx Hy.
    assert (Z.of_nat (S i) < n) as Hi.
    { assert (S i < length (map (fun diff => month_end_of (year_month_num a + diff))
                              (range n)))%nat as L
        by (apply nth_error_Some; congruence).
      rewrite length_map in L.
      destruct (Z_lt_le_dec 0 n) as [Hp|Hp].
      - pose proof (range_length n ltac:(lia)). lia.
      - unfold range in L. rewrite length_map, length_seq in L. lia. }
    rewrite nth_error_map, range_nth in Hx, Hy by lia.
    cbn [option_map] in Hx, Hy.
    assert (x = month_end_of (year_month_num a + Z.of_nat i)) as ->
      by congruence.
    assert (y = month_end_of (year_month_num a + Z.of_nat (S i))) as ->
      by congruence.
    clear Hx Hy.
    assert (in_calendar (year_month_num a + Z.of_nat i) = true) as C1
      by (apply Hcal, range_In; lia).
    assert (in_calendar (year_month_num a + Z.of_nat (S i)) = true) as C2
      by (apply Hcal, range_In; lia).
    destruct (month_end_of_props _ C2) as (V2 & Y2 & _).
    rewrite add_n_months_true, Y2 by assumption.
    replace (year_month_num a + Z.of_nat (S i) + -1)
      with (year_month_num a + Z.of_nat i) by lia.
    rewrite end_of_month_from_int_eq, C1. reflexivity.
Qed.

Lemma monthly_date_series_props (self : ClosedEndFund) (dates : list date) :
  monthly_date_series self = OK dates ->
  NoDup dates
  /\ (forall d, In d dates -> valid_date d = true /\ is_month_end d = true)
  /\ (forall i x y,
        nth_error dates i = Some x -> nth_error dates (S i) = Some y ->
        add_n_months y (-1) true = OK x).
Proof.
  unfold monthly_date_series. intros H. inv_bind H. inv_bind H.
  apply month_end_series_props in H. exact H.
Qed.

Section EngineProperties.

Variable pow_twelfth : Q -> Q.

Ltac schedule_fields :=
  cbn [lp_preferred_opening lp_preferred_irr_growth lp_preferred_payments
       lp_preferred_closing catch_up_opening catch_up_accruals
       catch_up_payments_gp_share catch_up_payments_lp_share catch_up_closing
       post_catch_up_payments_gp_share post_catch_up_payments_lp_share].

Ltac period_fields :=
  cbn [p_lp_opening p_lp_growth p_lp_payment p_lp_closing p_cu_opening
       p_cu_accrual p_cu_payment_gp p_cu_payment_lp p_cu_closing p_post_gp
       p_post_lp].

Lemma py_div_half (x q : Q) : py_div x (1 # 2) = OK q -> q = (x / (1 # 2))%Q.
Proof. unfold py_div. simpl. congruence. Qed.

(** A turn of the loop records, at its date, a period that follows the
    rule, from the closing balances stored at the preceding month-end. *)
Lemma allocation_step_period (self : ClosedEndFund)
  (deployments proceeds : Dict.t Q) (d : date) (s s' : schedules) :
  allocation_step pow_twelfth self deployments proceeds d s = OK s' ->
  exists prev fraction p,
    add_n_months d (-1) true = OK prev
    /\ py_div (carry_percent self) ((1 # 2) - carry_percent self)%Q
       = OK fraction
    /\ period_at s' d = Some p
    /\ period_rule self (irr_hurdle_per_month pow_twelfth self)
         (Dict.get_default proceeds d 0%Q)
         (Dict.get_default deployments d 0%Q)
         (Dict.get_default (lp_preferred_closing s) prev 0%Q)
         (Dict.get_default (catch_up_closing s) prev 0%Q)
         fraction p.
Proof.
  unfold allocation_step. intros H.
  apply bind_OK in H. destruct H as (prev & Eprev & H).
  rewrite Eprev in H. cbn [bind] in H.
  apply bind_OK in H. destruct H as (fraction & Efr & H).
  exists prev, fraction.
  destruct (Qgtb _ _) eqn:G1 in H.
  - apply bind_OK in H. destruct H as (capacity & Ecap & H).
    apply py_div_half in Ecap. subst capacity.
    destruct (Qgtb _ _) eqn:G2 in H;
      inversion H; subst s'; clear H;
      eexists; (split; [exact Eprev|]); (split; [exact Efr|]);
      (split; [unfold period_at; schedule_fields;
               rewrite !get_update_same; reflexivity|]);
      unfold period_rule; period_fields; rewrite G1, G2;
      repeat split; reflexivity.
  - inversion H; subst s'; clear H;
      eexists; (split; [exact Eprev|]); (split; [exact Efr|]);
      (split; [unfold period_at; schedule_fields;
               rewrite !get_update_same; reflexivity|]);
      unfold period_rule; period_fields; rewrite G1;
      repeat split; reflexivity.
Qed.

Lemma allocation_step_other (self : ClosedEndFund)
  (deployments proceeds : Dict.t Q) (d d' : date) (s s' : schedules) :
  d <> d' ->
  allocation_step pow_twelfth self deployments proceeds d' s = OK s' ->
  period_at s' d = period_at s d.
Proof.
  intros N. unfold allocation_step. intros H.
  apply bind_OK in H. destruct H as (prev & Eprev & H).
  rewrite Eprev in H. cbn [bind] in H.
  apply bind_OK in H. destruct H as (fraction & Efr & H).
  destruct (Qgtb _ _) in H.
  - apply bind_OK in H. destruct H as (capacity & Ecap & H).
    destruct (Qgtb _ _) in H;
      inversion H; subst s'; clear H;
      unfold period_at; schedule_fields;
      rewrite !get_update_other by assumption; reflexivity.
  - inversion H; subst s'; clear H;
      unfold period_at; schedule_fields;
      rewrite !get_update_other by assumption; reflexivity.
Qed.

Lemma generate_proceeds_allocations_as_dict_inv (self : ClosedEndFund)
  (dates : list date) (proceeds : Dict.t Q) (s : schedules) :
  monthly_date_series self = OK dates ->
  generate_proceeds pow_twelfth self = OK proceeds ->
  generate_proceeds_allocations_as_dict pow_twelfth self = OK s ->
  exists deployments,
    generate_deployments self = OK deployments
    /\ for_each (allocation_step pow_twelfth self deployments proceeds)
         dates empty_schedules = OK s.
Proof.
  intros Hd Hp H. unfold generate_proceeds_allocations_as_dict in H.
  inv_bind H. inv_bind H. inv_bind H. inv_bind H.
  rewrite Hp in E0. inversion E0; subst x0.
  rewrite Hd in E2. inversion E2; subst x2.
  eauto.
Qed.

(** Every date of the series holds a period that follows the rule. *)
Lemma waterfall_rows (self : ClosedEndFund) (deployments proceeds : Dict.t Q)
  (P : date -> period -> Prop) :
  (forall d p hurdle lp_open cu_open fraction,
     period_rule self hurdle (Dict.get_default proceeds d 0%Q)
       (Dict.get_default deployments d 0%Q) lp_open cu_open fraction p ->
     P d p) ->
  forall dates s0 s,
    NoDup dates ->
    for_each (allocation_step pow_twelfth self deployments proceeds)
      dates s0 = OK s ->
    forall d, In d dates -> exists p, period_at s d = Some p /\ P d p.
Proof.
  intros HP dates s0 s Hnd H.
  apply (for_each_rows
           (allocation_step pow_twelfth self deployments proceeds)
           (fun d s => exists p, period_at s d = Some p /\ P d p))
    with (s := s0); try assumption.
  - intros d s1 s2 Hs. apply allocation_step_period in Hs.
    destruct Hs as (prev & fraction & p & _ & _ & Hp & Hr).
    exists p. split; [assumption|]. eapply HP. exact Hr.
  - intros d d' s1 s2 N Hs (p & Hp & HPp).
    exists p. split; [|assumption].
    rewrite (allocation_step_other _ _ _ _ _ _ _ N Hs). assumption.
Qed.

Lemma period_rule_allocates (self : ClosedEndFund)
  (hurdle proceed deployment lp_open cu_open fraction : Q) (p : period) :
  period_rule self hurdle proceed deployment lp_open cu_open fraction p ->
  (p_lp_payment p + p_cu_payment_gp p + p_cu_payment_lp p + p_post_gp p
   + p_post_lp p == proceed)%Q.
Proof.
  unfold period_rule.
  intros (_ & _ & Hpay & _ & _ & _ & Hbranch).
  pose proof (py_min_spec proceed
                (p_lp_opening p + p_lp_growth p + deployment)%Q)
    as (M1 & M2 & _).
  rewrite <- Hpay in M1, M2.
  destruct (Qgtb proceed (p_lp_payment p)) eqn:G1.
  - cbv zeta in Hbranch.
    set (cu := py_min ((p_cu_opening p + p_cu_accrual p) / (1 # 2))%Q
                 (proceed - p_lp_payment p)%Q) in *.
    destruct Hbranch as (-> & -> & _ & Hpost).
    pose proof (py_min_spec ((p_cu_opening p + p_cu_accrual p) / (1 # 2))%Q
                  (proceed - p_lp_payment p)%Q) as (_ & C2 & _).
    fold cu in C2.
    destruct (Qgtb proceed (p_lp_payment p + cu)%Q) eqn:G2.
    + destruct Hpost as [-> ->]. ring.
    + destruct Hpost as [-> ->]. apply Qgtb_false in G2. lra.
  - destruct Hbranch as (-> & -> & _ & -> & ->).
    apply Qgtb_false in G1. lra.
Qed.


(** C5.  At every date of the series: when the proceed exceeds the
    LP-preferred payment, the catch-up closing balance is the opening
    balance plus the accrual minus the GP share of the catch-up payment
    alone, although an equal LP share is paid as well; otherwise the closing
    balance is the opening balance plus the accrual and the two catch-up and
    the two post-catch-up payments are 0. *)
Theorem catch_up_closing_balance (self : ClosedEndFund)
  (dates : list date) (proceeds : Dict.t Q) (s : schedules)
  (Hdates : monthly_date_series self = OK dates)
  (Hproceeds : generate_proceeds pow_twelfth self = OK proceeds)
  (Hs : generate_proceeds_allocations_as_dict pow_twelfth self = OK s) :
  forall d, In d dates ->
    exists p,
      period_at s d = Some p
      /\ ((p_lp_payment p < Dict.get_default proceeds d 0)%Q ->
          p_cu_closing p
          = (p_cu_opening p + p_cu_accrual p - p_cu_payment_gp p)%Q
          /\ p_cu_payment_lp p = p_cu_payment_gp p)
      /\ ((Dict.get_default proceeds d 0 <= p_lp_payment p)%Q ->
          p_cu_closing p = (p_cu_opening p + p_cu_accrual p)%Q
          /\ p_cu_payment_gp p = 0%Q /\ p_cu_payment_lp p = 0%Q
          /\ p_post_gp p = 0%Q /\ p_post_lp p = 0%Q).
Proof.
  destruct (generate_proceeds_allocations_as_dict_inv _ _ _ _
              Hdates Hproceeds Hs) as (deployments & _ & Hloop).
  destruct (monthly_date_series_props _ _ Hdates) as (Hnd & _).
  apply (waterfall_rows self deployments proceeds
           (fun d p =>
              ((p_lp_payment p < Dict.get_default proceeds d 0)%Q ->
               p_cu_closing p
               = (p_cu_opening p + p_cu_accrual p - p_cu_payment_gp p)%Q
               /\ p_cu_payment_lp p = p_cu_payment_gp p)
              /\ ((Dict.get_default proceeds d 0 <= p_lp_payment p)%Q ->
                  p_cu_closing p = (p_cu_opening p + p_cu_accrual p)%Q
                  /\ p_cu_payment_gp p = 0%Q /\ p_cu_payment_lp p = 0%Q
                  /\ p_post_gp p = 0%Q /\ p_post_lp p = 0%Q)))
    with (s0 := empty_schedules); try assumption.
  intros d p hurdle lp_open cu_open fraction Hr.
  unfold period_rule in Hr.
  destruct Hr as (_ & _ & _ & _ & _ & _ & Hbranch).
  destruct (Qgtb (Dict.get_default proceeds d 0%Q) (p_lp_payment p)) eqn:G1.
  - apply Qgtb_true in G1. cbv zeta in Hbranch.
    destruct Hbranch as (Hgp & Hlp & Hc & _).
    split; [|intros; lra]. intros _. split; congruence.
  - apply Qgtb_false in G1. split; [intros; lra|]. intros _. tauto.
Qed.

(** C9.  For every validated config with a nonnegative annual hurdle, at
    every date of the series the LP-preferred closing balance returned by
    [generate_proceeds_allocations_as_dict] is nonnegative: the payment is
    the minimum of the proceed and the amount due, so it never exceeds the
    amount due.  (That alone carries the proof, which uses neither the
    validation nor the sign of the hurdle.) *)
Theorem lp_preferred_closing_nonnegative (self : ClosedEndFund)
  (dates : list date) (proceeds : Dict.t Q) (s : schedules)
  (Hvalid : validated self)
  (Hhurdle : (0 <= annual_effective_irr_hurdle self)%Q)
  (Hdates : monthly_date_series self = OK dates)
  (Hproceeds : generate_proceeds pow_twelfth self = OK proceeds)
  (Hs : generate_proceeds_allocations_as_dict pow_twelfth self = OK s) :
  forall d, In d dates ->
    exists closing,
      Dict.get (lp_preferred_closing s) d = Some closing
      /\ (0 <= closing)%Q.
Proof.
  destruct (generate_proceeds_allocations_as_dict_inv _ _ _ _
              Hdates Hproceeds Hs) as (deployments & _ & Hloop).
  destruct (monthly_date_series_props _ _ Hdates) as (Hnd & _).
  intros d Hd.
  destruct (waterfall_rows self deployments proceeds
              (fun d p => (0 <= p_lp_closing p)%Q)) 
    with (s0 := empty_schedules) (dates := dates) (s := s) (d := d)
    as (p & Hp & Hc); try assumption.
  - intros d' p hurdle lp_open cu_open fraction Hr.
    unfold period_rule in Hr. destruct Hr as (_ & _ & Hpay & Hcl & _).
    pose proof (py_min_spec (Dict.get_default proceeds d' 0%Q)
                  (p_lp_opening p + p_lp_growth p
                   + Dict.get_default deployments d' 0%Q)%Q) as (_ & M2 & _).
    rewrite <- Hpay in M2. rewrite Hcl. lra.
  - exists (p_lp_closing p). split; [|assumption].
    apply period_at_fields in Hp. tauto.
Qed.

Lemma add_n_months_preceding (d : date) :
  valid_date d = true -> add_n_months d (-1) true = preceding_month_end d.
Proof.
  intros V. rewrite add_n_months_true by assumption.
  apply valid_date_fields in V.
  unfold end_of_month_from_int, preceding_month_end, year_month_num.
  destruct (month d =? 1) eqn:M.
  - apply Z.eqb_eq in M.
    replace (year d * 12 + month d + -1) with ((year d - 1) * 12 + 12) by lia.
    rewrite decode_encode by lia. reflexivity.
  - apply Z.eqb_neq in M.
    replace (year d * 12 + month d + -1) with (year d * 12 + (month d - 1))
      by lia.
    rewrite decode_encode by lia. reflexivity.
Qed.

Lemma waterfall_first (self : ClosedEndFund) (deployments proceeds : Dict.t Q)
  (d : date) (r : list date) (s : schedules) :
  NoDup (d :: r) ->
  for_each (allocation_step pow_twelfth self deployments proceeds)
    (d :: r) empty_schedules = OK s ->
  exists p,
    period_at s d = Some p /\ p_lp_opening p = 0%Q /\ p_cu_opening p = 0%Q.
Proof.
  intros Hnd H. simpl in H. inv_bind H. inversion Hnd as [|? ? Hd Hr]; subst.
  apply (for_each_stable
           (allocation_step pow_twelfth self deployments proceeds)
           (fun z => d <> z)
           (fun s => exists p, period_at s d = Some p
                               /\ p_lp_opening p = 0%Q
                               /\ p_cu_opening p = 0%Q))
    with (xs := r) (s := x); try assumption.
  - intros z s1 s2 N Hz (p & Hp & Hrest). exists p. split; [|assumption].
    rewrite (allocation_step_other _ _ _ _ _ _ _ N Hz). assumption.
  - intros z Hz ->. contradiction.
  - apply allocation_step_period in E.
    destruct E as (prev & fraction & p & _ & _ & Hp & Hrule).
    exists p. split; [assumption|].
    unfold period_rule in Hrule.
    destruct Hrule as (H1 & _ & _ & _ & H5 & _).
    rewrite H1, H5. split; reflexivity.
Qed.

Lemma waterfall_adjacent (self : ClosedEndFund)
  (deployments proceeds : Dict.t Q) (dates : list date) (s0 s : schedules) :
  NoDup dates ->
  for_each (allocation_step pow_twelfth self deployments proceeds)
    dates s0 = OK s ->
  forall i x y,
    nth_error dates i = Some x -> nth_error dates (S i) = Some y ->
    add_n_months y (-1) true = OK x ->
    exists px py,
      period_at s x = Some px /\ period_at s y = Some py
      /\ p_lp_opening py = p_lp_closing px
      /\ p_cu_opening py = p_cu_closing px.
Proof.
  intros Hnd H.
  apply (for_each_adjacent
           (allocation_step pow_twelfth self deployments proceeds)
           (fun x y => add_n_months y (-1) true = OK x)
           (fun x y s =>
              exists px py,
                period_at s x = Some px /\ period_at s y = Some py
                /\ p_lp_opening py = p_lp_closing px
                /\ p_cu_opening py = p_cu_closing px))
    with (s := s0); try assumption.
  - intros x y s1 s2 s3 Hprev N Hx Hy.
    apply allocation_step_period in Hx.
    destruct Hx as (_ & _ & px & _ & _ & Hpx & _).
    pose proof (allocation_step_other _ _ _ _ _ _ _ N Hy) as Hkeep.
    apply allocation_step_period in Hy.
    destruct Hy as (prev & fraction & py & Eprev & _ & Hpy & Hrule).
    rewrite Hprev in Eprev. inversion Eprev; subst prev.
    exists px, py. split; [congruence|]. split; [assumption|].
    unfold period_rule in Hrule.
    destruct Hrule as (H1 & _ & _ & _ & H5 & _).
    apply period_at_fields in Hpx.
    destruct Hpx as (_ & _ & _ & F4 & _ & _ & _ & _ & F9 & _).
    rewrite H1, H5. unfold Dict.get_default. rewrite F4, F9.
    split; reflexivity.
  - intros x y z s1 s2 Nx Ny Hz (px & py & Hpx & Hpy & Hrest).
    exists px, py.
    rewrite (allocation_step_other _ _ _ _ _ _ _ (not_eq_sym Nx) Hz).
    rewrite (allocation_step_other _ _ _ _ _ _ _ (not_eq_sym Ny) Hz).
    auto.
Qed.

Lemma closing_invested_capital_step_OK (deployments capital_returns : Dict.t Q)
  (d : date) (m m' : Dict.t Q) :
  closing_invested_capital_step deployments capital_returns d m = OK m' ->
  exists prev,
    add_n_months d (-1) true = OK prev
    /\ m' = Dict.update m d
              (Dict.get_default m prev 0 + Dict.get_default deployments d 0
               - Dict.get_default capital_returns d 0)%Q.
Proof.
  unfold closing_invested_capital_step. intros H. inv_bind H.
  inversion H. eauto.
Qed.

Lemma closing_invested_capital_first (deployments capital_returns : Dict.t Q)
  (d : date) (r : list date) (m : Dict.t Q) :
  NoDup (d :: r) ->
  for_each (closing_invested_capital_step deployments capital_returns)
    (d :: r) Dict.empty = OK m ->
  Dict.get m d
  = Some (0 + Dict.get_default deployments d 0
          - Dict.get_default capital_returns d 0)%Q.
Proof.
  intros Hnd H. simpl in H. inv_bind H. inversion Hnd as [|? ? Hd Hr]; subst.
  apply (for_each_stable
           (closing_invested_capital_step deployments capital_returns)
           (fun z => d <> z)
           (fun m => Dict.get m d
                     = Some (0 + Dict.get_default deployments d 0
                             - Dict.get_default capital_returns d 0)%Q))
    with (xs := r) (s := x); try assumption.
  - intros z m1 m2 N Hz Hm. apply closing_invested_capital_step_OK in Hz.
    destruct Hz as (prev & _ & ->). rewrite get_update_other; assumption.
  - intros z Hz ->. contradiction.
  - apply closing_invested_capital_step_OK in E.
    destruct E as (prev & _ & ->). rewrite get_update_same. reflexivity.
Qed.

Lemma closing_invested_capital_adjacent
  (deployments capital_returns : Dict.t Q) (dates : list date)
  (m0 m : Dict.t Q) :
  NoDup dates ->
  for_each (closing_invested_capital_step deployments capital_returns)
    dates m0 = OK m ->
  forall i x y,
    nth_error dates i = Some x -> nth_error dates (S i) = Some y ->
    add_n_months y (-1) true = OK x ->
    exists cx,
      Dict.get m x = Some cx
      /\ Dict.get m y
         = Some (cx + Dict.get_default deployments y 0
                 - Dict.get_default capital_returns y 0)%Q.
Proof.
  intros Hnd H.
  apply (for_each_adjacent
           (closing_invested_capital_step deployments capital_returns)
           (fun x y => add_n_months y (-1) true = OK x)
           (fun x y m =>
              exists cx,
                Dict.get m x = Some cx
                /\ Dict.get m y
                   = Some (cx + Dict.get_default deployments y 0
                           - Dict.get_default capital_returns y 0)%Q))
    with (s := m0); try assumption.
  - intros x y m1 m2 m3 Hprev N Hx Hy.
    apply closing_invested_capital_step_OK in Hx, Hy.
    destruct Hx as (px & _ & ->). destruct Hy as (prev & Eprev & ->).
    rewrite Hprev in Eprev. inversion Eprev; subst prev.
    eexists. split.
    + rewrite get_update_other by assumption. apply get_update_same.
    + rewrite get_update_same. unfold Dict.get_default at 1.
      rewrite get_update_same. reflexivity.
  - intros x y z m1 m2 Nx Ny Hz (cx & Hcx & Hcy).
    apply closing_invested_capital_step_OK in Hz.
    destruct Hz as (prev & _ & ->). exists cx.
    rewrite !get_update_other by congruence. auto.
Qed.

(** C10.  Adding -1 month to a date with the default end-of-month flag
    gives the preceding month-end date (and raises [ValueError] where the
    calendar has none, before January of year 1).  Consequently, over the
    monthly date series, the waterfall's two opening balances at each date
    are the closing balances stored at the element before it, and the closing
    invested capital at each date is built on the closing invested capital
    stored at the element before it; the fallback 0 is used at the first
    element only. *)
Theorem prior_period_lookup :
  (forall d, valid_date d = true ->
     add_n_months d (-1) true = preceding_month_end d)
  /\ (forall self dates s,
        monthly_date_series self = OK dates ->
        generate_proceeds_allocations_as_dict pow_twelfth self = OK s ->
        (forall d, hd_error dates = Some d ->
           exists p,
             period_at s d = Some p
             /\ p_lp_opening p = 0%Q /\ p_cu_opening p = 0%Q)
        /\ (forall i x y,
              nth_error dates i = Some x -> nth_error dates (S i) = Some y ->
              add_n_months y (-1) true = OK x
              /\ exists px py,
                   period_at s x = Some px /\ period_at s y = Some py
                   /\ p_lp_opening py = p_lp_closing px
                   /\ p_cu_opening py = p_cu_closing px))
  /\ (forall self dates deployments capital_returns closing,
        monthly_date_series self = OK dates ->
        generate_deployments self = OK deployments ->
        generate_capital_returns self = OK capital_returns ->
        generate_closing_invested_capital self = OK closing ->
        (forall d, hd_error dates = Some d ->
           Dict.get closing d
           = Some (0 + Dict.get_default deployments d 0
                   - Dict.get_default capital_returns d 0)%Q)
        /\ (forall i x y,
              nth_error dates i = Some x -> nth_error dates (S i) = Some y ->
              add_n_months y (-1) true = OK x
              /\ exists cx,
                   Dict.get closing x = Some cx
                   /\ Dict.get closing y
                      = Some (cx + Dict.get_default deployments y 0
                              - Dict.get_default capital_returns y 0)%Q)).
Proof.
  split; [exact add_n_months_preceding|]. split.
  - intros self dates s Hdates Hs.
    destruct (monthly_date_series_props _ _ Hdates) as (Hnd & _ & Hadj).
    unfold generate_proceeds_allocations_as_dict in Hs.
    inv_bind Hs. inv_bind Hs. inv_bind Hs. inv_bind Hs.
    rewrite Hdates in E2. inversion E2; subst x2. split.
    + intros d Hd. destruct dates as [|d0 r]; [discriminate|].
      inversion Hd; subst d0. eapply waterfall_first; eassumption.
    + intros i a b Ha Hb. split; [eapply Hadj; eassumption|].
      eapply waterfall_adjacent; try eassumption. eapply Hadj; eassumption.
  - intros self dates deployments capital_returns closing
      Hdates Hdep Hcr Hc.
    destruct (monthly_date_series_props _ _ Hdates) as (Hnd & _ & Hadj).
    unfold generate_closing_invested_capital in Hc.
    rewrite Hdep, Hcr, Hdates in Hc. simpl in Hc. split.
    + intros d Hd. destruct dates as [|d0 r]; [discriminate|].
      inversion Hd; subst d0.
      eapply closing_invested_capital_first; eassumption.
    + intros i a b Ha Hb. split; [eapply Hadj; eassumption|].
      eapply closing_invested_capital_adjacent; try eassumption.
      eapply Hadj; eassumption.
Qed.

End EngineProperties.

(** ** Runs of the small fund *)

Lemma small_fund_is_validated : validated (constructed small_args).
Proof. exists small_args. reflexivity. Defined.

Lemma small_fund_series :
  monthly_date_series (constructed small_args)
  = OK [mkdate 2021 3 31; mkdate 2021 4 30; mkdate 2021 5 31;
        mkdate 2021 6 30; mkdate 2021 7 31].
Proof. reflexivity. Qed.

Ltac run_small_fund proceeds s Hp Hs :=
  destruct (generate_proceeds pow_twelfth_approx (constructed small_args))
    as [proceeds|] eqn:Hp; [|vm_compute in Hp; discriminate];
  destruct (generate_proceeds_allocations_as_dict pow_twelfth_approx
              (constructed small_args))
    as [s|] eqn:Hs; [|vm_compute in Hs; discriminate].


Lemma catch_up_closing_balance_witness :
  exists dates proceeds s,
    monthly_date_series (constructed small_args) = OK dates
    /\ generate_proceeds pow_twelfth_approx (constructed small_args)
       = OK proceeds
    /\ generate_proceeds_allocations_as_dict pow_twelfth_approx
         (constructed small_args) = OK s
    /\ forall d, In d dates ->
         exists p,
           period_at s d = Some p
           /\ ((p_lp_payment p < Dict.get_default proceeds d 0)%Q ->
               p_cu_closing p
               = (p_cu_opening p + p_cu_accrual p - p_cu_payment_gp p)%Q
               /\ p_cu_payment_lp p = p_cu_payment_gp p)
           /\ ((Dict.get_default proceeds d 0 <= p_lp_payment p)%Q ->
               p_cu_closing p = (p_cu_opening p + p_cu_accrual p)%Q
               /\ p_cu_payment_gp p = 0%Q /\ p_cu_payment_lp p = 0%Q
               /\ p_post_gp p = 0%Q /\ p_post_lp p = 0%Q).
Proof.
  run_small_fund proceeds s Hp Hs.
  eexists _, proceeds, s.
  split; [exact small_fund_series|]. split; [reflexivity|].
  split; [reflexivity|].
  exact (catch_up_closing_balance pow_twelfth_approx (constructed small_args)
           _ proceeds s small_fund_series Hp Hs).
Defined.

Lemma lp_preferred_closing_nonnegative_witness :
  exists dates proceeds s,
    monthly_date_series (constructed small_args) = OK dates
    /\ generate_proceeds pow_twelfth_approx (constructed small_args)
       = OK proceeds
    /\ generate_proceeds_allocations_as_dict pow_twelfth_approx
         (constructed small_args) = OK s
    /\ forall d, In d dates ->
         exists closing,
           Dict.get (lp_preferred_closing s) d = Some closing
           /\ (0 <= closing)%Q.
Proof.
  run_small_fund proceeds s Hp Hs.
  eexists _, proceeds, s.
  split; [exact small_fund_series|]. split; [reflexivity|].
  split; [reflexivity|].
  refine (lp_preferred_closing_nonnegative pow_twelfth_approx
            (constructed small_args) _ proceeds s small_fund_is_validated _
            small_fund_series Hp Hs).
  vm_compute. discriminate.
Defined.

Lemma prior_period_lookup_witness :
  add_n_months (mkdate 2021 3 31) (-1) true = OK (mkdate 2021 2 28)
  /\ add_n_months (mkdate 2021 1 31) (-1) true = OK (mkdate 2020 12 31)
  /\ exists s closing,
       generate_proceeds_allocations_as_dict pow_twelfth_approx
         (constructed small_args) = OK s
       /\ generate_closing_invested_capital (constructed small_args)
          = OK closing
       /\ (exists p4 p5,
             period_at s (mkdate 2021 4 30) = Some p4
             /\ period_at s (mkdate 2021 5 31) = Some p5
             /\ p_lp_opening p5 = p_lp_closing p4
             /\ p_cu_opening p5 = p_cu_closing p4)
       /\ (exists c4,
             Dict.get closing (mkdate 2021 4 30) = Some c4
             /\ Dict.get closing (mkdate 2021 5 31)
                = Some (c4 + 100 / inject_Z 2 - 0)%Q).
Proof.
  pose proof (prior_period_lookup pow_twelfth_approx) as (H1 & H2 & H3).
  split; [rewrite (H1 (mkdate 2021 3 31) eq_refl); reflexivity|].
  split; [rewrite (H1 (mkdate 2021 1 31) eq_refl); reflexivity|].
  destruct (generate_proceeds_allocations_as_dict pow_twelfth_approx
              (constructed small_args))
    as [s|] eqn:Hs; [|vm_compute in Hs; discriminate].
  destruct (generate_closing_invested_capital (constructed small_args))
    as [closing|] eqn:Hc; [|vm_compute in Hc; discriminate].
  exists s, closing.
  split; [reflexivity|]. split; [reflexivity|]. split.
  - destruct (H2 _ _ s small_fund_series Hs) as (_ & Hadj).
    destruct (Hadj 1%nat (mkdate 2021 4 30) (mkdate 2021 5 31)
                eq_refl eq_refl) as (_ & Hp).
    exact Hp.
  - assert (generate_deployments (constructed small_args)
            = OK [(mkdate 2021 4 30, (100 / inject_Z 2)%Q);
                  (mkdate 2021 5 31, (100 / inject_Z 2)%Q)]) as Hd
      by reflexivity.
    assert (generate_capital_returns (constructed small_args)
            = OK [(mkdate 2021 6 30, (100 / inject_Z 2)%Q);
                  (mkdate 2021 7 31, (100 / inject_Z 2)%Q)]) as Hr
      by reflexivity.
    destruct (H3 _ _ _ _ closing small_fund_series Hd Hr Hc) as (_ & Hadj).
    destruct (Hadj 1%nat (mkdate 2021 4 30) (mkdate 2021 5 31)
                eq_refl eq_refl) as (_ & cx & Hx & Hy).
    exists cx. split; [exact Hx|]. rewrite Hy. reflexivity.
Defined.

(** ** Totality of the schedule generators *)

Lemma shift_loop (g : Q -> Q) (len : Z) (D : Z -> Z) (amount : Q)
  (l : list Z) :
  (forall k, In k l ->
     in_calendar (D k) = true /\ in_calendar (D k + len) = true) ->
  (forall j k, In j l -> In k l -> D j = D k -> j = k) ->
  NoDup l ->
  for_each
    (fun '(d, value) m =>
       key <- add_n_months d len true ;; OK (Dict.update m key (g value)))
    (map (fun k => (month_end_of (D k), amount)) l) Dict.empty
  = OK (map (fun k => (month_end_of (D k + len), g amount)) l).
Proof.
  intros Hcal Hinj Hnd.
  assert (Hkey : forall k, In k l ->
            month_end_of (year_month_num (month_end_of (D k)) + len)
            = month_end_of (D k + len)).
  { intros k Hk. destruct (Hcal k Hk) as [C _].
    destruct (month_end_of_props _ C) as (_ & -> & _). reflexivity. }
  rewrite (for_each_build _
             (fun p => month_end_of (year_month_num (fst p) + len))
             (fun p => g (snd p))).
  - simpl. rewrite map_map. f_equal. apply map_ext_in. intros k Hk. simpl.
    rewrite Hkey by assumption. reflexivity.
  - intros [d v] m Hx. apply in_map_iff in Hx.
    destruct Hx as (k & Hk & Hin). inversion Hk; subst d v. simpl.
    destruct (Hcal k Hin) as [C1 C2].
    destruct (month_end_of_props _ C1) as (V & Y & _).
    rewrite add_n_months_true_OK; [reflexivity | assumption |].
    rewrite Y. assumption.
  - rewrite map_map. simpl.
    rewrite (map_ext_in _ (fun k => month_end_of (D k + len)))
      by (intros; apply Hkey; assumption).
    apply NoDup_map_month_end_of; [|intros; apply Hinj; auto; lia|assumption].
    intros k Hk. apply Hcal. assumption.
  - simpl. tauto.
Qed.

Lemma calendar_safe_spec (self : ClosedEndFund) (n : Z) :
  number_of_deployments self = OK n -> calendar_safe self = true ->
  14 <= year_month_num (fund_start_date self)
  /\ forall k, 0 <= k < n ->
       in_calendar (deployment_month self k) = true
       /\ in_calendar (return_month self k) = true
       /\ return_month self k <= 9998 * 12 + 12.
Proof.
  unfold calendar_safe. intros ->. rewrite andb_true_iff, Z.leb_le.
  intros [H1 H2]. split; [assumption|]. intros k Hk.
  rewrite forallb_forall in H2. specialize (H2 k (proj2 (range_In n k) Hk)).
  rewrite !andb_true_iff, Z.leb_le in H2. unfold MAXYEAR in H2.
  simpl in H2. tauto.
Qed.

Lemma max_date_In (ds : list date) (m : date) :
  max_date ds = OK m -> In m ds.
Proof.
  destruct ds as [|d r]; simpl; [discriminate|].
  intros H. inversion H as [Hm]; clear H Hm.
  assert (forall acc,
            let f := fold_left (fun m x => if date_ltb m x then x else m) r acc
            in f = acc \/ In f r) as Hf.
  { induction r as [|x r IH]; simpl; intros acc; [left; reflexivity|].
    destruct (IH (if date_ltb acc x then x else acc)) as [E|E].
    - rewrite E. destruct (date_ltb acc x); auto.
    - auto. }
  destruct (Hf d) as [E|E]; [left; symmetry; exact E | right; exact E].
Qed.

Lemma days_in_year_OK (d : date) :
  1 <= year d <= 9998 ->
  exists v, days_in_year d = OK v /\ v <> 0.
Proof.
  intros Hy. unfold days_in_year, new_date.
  assert (valid_ymd (year d + 1) 1 1 = true) as ->
    by (apply valid_ymd_iff; unfold monthrange; simpl; lia).
  assert (valid_ymd (year d) 1 1 = true) as ->
    by (apply valid_ymd_iff; unfold monthrange; simpl; lia).
  simpl. eexists. split; [reflexivity|].
  unfold toordinal, days_before_year, days_before_month. simpl.
  replace (year d + 1 - 1) with (year d) by lia.
  Z.div_mod_to_equations. lia.
Qed.

(** The explicit schedules of a config that deploys at least once inside the
    calendar. *)
Section Schedules.

Variable pow_twelfth : Q -> Q.
Variable self : ClosedEndFund.
Variable n : Z.
Hypothesis Hvalid : validated self.
Hypothesis Hn : number_of_deployments self = OK n.
Hypothesis Hpos : 1 <= n.
Hypothesis Hsafe : calendar_safe self = true.

Local Abbreviation amount := (committed_capital self / inject_Z n)%Q.

Lemma deployments_explicit :
  generate_deployments self
  = OK (map (fun k => (month_end_of (deployment_month self k), amount))
          (range n)).
Proof.
  destruct Hvalid as (a & Ha). apply init_OK_inv in Ha.
  destruct Ha as (_ & Vd & _).
  apply generate_deployments_OK; try assumption.
  intros k Hk. apply (calendar_safe_spec self n Hn Hsafe). assumption.
Qed.

Lemma return_month_inj (j k : Z) :
  In j (range n) -> In k (range n) ->
  deployment_month self j = deployment_month self k -> j = k.
Proof.
  intros _ _. unfold deployment_month. intros E.
  unfold number_of_deployments in Hn.
  destruct (number_of_months_in_between_deployments self =? 0) eqn:Z0;
    [discriminate|]. apply Z.eqb_neq in Z0.
  apply Z.mul_cancel_r with (p := number_of_months_in_between_deployments self);
    [assumption | lia].
Qed.

Lemma shift_calendar (k : Z) :
  In k (range n) ->
  in_calendar (deployment_month self k) = true
  /\ in_calendar
       (deployment_month self k + length_of_deployment_in_months self) = true.
Proof.
  intros Hk. apply range_In in Hk.
  destruct (calendar_safe_spec self n Hn Hsafe) as (_ & H).
  destruct (H k Hk) as (C1 & C2 & _). auto.
Qed.

Lemma capital_returns_explicit :
  generate_capital_returns self
  = OK (map (fun k => (month_end_of (return_month self k), amount))
          (range n)).
Proof.
  unfold generate_capital_returns. rewrite deployments_explicit. simpl.
  unfold Dict.items.
  apply (shift_loop (fun v => v) (length_of_deployment_in_months self)
           (deployment_month self) amount (range n)).
  - exact shift_calendar.
  - exact return_month_inj.
  - apply range_NoDup.
Qed.

Lemma proceeds_explicit :
  generate_proceeds pow_twelfth self
  = OK (map (fun k =>
               (month_end_of (return_month self k),
                fv (irr_per_month pow_twelfth self)
                   (length_of_deployment_in_months self) 0 (- amount)))
          (range n)).
Proof.
  unfold generate_proceeds. rewrite deployments_explicit. simpl.
  unfold Dict.items.
  apply (shift_loop
           (fun v => fv (irr_per_month pow_twelfth self)
                        (length_of_deployment_in_months self) 0 (- v))
           (length_of_deployment_in_months self)
           (deployment_month self) amount (range n)).
  - exact shift_calendar.
  - exact return_month_inj.
  - apply range_NoDup.
Qed.

Lemma range_nonempty : exists k r, range n = k :: r.
Proof.
  unfold range. destruct (Z.to_nat n) as [|m] eqn:E; [lia|].
  simpl. eauto.
Qed.

(** The dates of the series are dates from which both one month back and
    one year ahead are in the calendar. *)
Lemma series_explicit :
  exists dates,
    monthly_date_series self = OK dates
    /\ forall d, In d dates ->
         valid_date d = true /\ 14 <= year_month_num d /\ year d <= 9998.
Proof.
  destruct Hvalid as (a & Ha). apply init_OK_inv in Ha.
  destruct Ha as (Vf & _).
  destruct (calendar_safe_spec self n Hn Hsafe) as (Hfs & Hk).
  unfold monthly_date_series. rewrite capital_returns_explicit. simpl.
  destruct (max_date _) as [last|e] eqn:M.
  2:{ destruct range_nonempty as (k & r & E). rewrite E in M.
      simpl in M. discriminate. }
  simpl. apply max_date_In in M. unfold Dict.keys in M.
  rewrite map_map in M. simpl in M. apply in_map_iff in M.
  destruct M as (k & <- & Hin). apply range_In in Hin.
  destruct (Hk k Hin) as (_ & C & Hle).
  destruct (month_end_of_props _ C) as (Vl & Yl & _).
  rewrite generate_monthly_date_series_OK by assumption.
  eexists. split; [reflexivity|].
  intros d Hd. apply in_map_iff in Hd. destruct Hd as (j & <- & Hj).
  apply range_In in Hj. unfold number_of_months_diff in Hj.
  rewrite Yl in Hj.
  assert (in_calendar (year_month_num (fund_start_date self) + j) = true)
    as Cj.
  { apply valid_date_in_calendar in Vf. unfold in_calendar in *.
    rewrite andb_true_iff, !Z.leb_le in *. lia. }
  destruct (month_end_of_props _ Cj) as (Vd & Yd & _).
  split; [assumption|]. split; [lia|].
  apply valid_date_fields in Vd. unfold year_month_num in Yd at 1. lia.
Qed.

Lemma profits_return : returns (generate_profits pow_twelfth self).
Proof.
  unfold generate_profits.
  rewrite capital_returns_explicit, proceeds_explicit. simpl.
  apply for_each_total. intros [d v] m Hx. unfold Dict.items in Hx.
  apply in_map_iff in Hx. destruct Hx as (k & Hk & Hin).
  inversion Hk; subst d v.
  destruct (get_In
              (map (fun k => (month_end_of (return_month self k), amount))
                 (range n))
              (month_end_of (return_month self k))) as (c & ->).
  - unfold Dict.keys. rewrite map_map. simpl.
    apply (in_map (fun k => month_end_of (return_month self k))). assumption.
  - eauto.
Qed.

Lemma prior_month_OK (d : date) :
  valid_date d = true -> 14 <= year_month_num d ->
  exists prev, add_n_months d (-1) true = OK prev.
Proof.
  intros V H. eexists. apply add_n_months_true_OK; [assumption|].
  apply valid_date_in_calendar in V. unfold in_calendar in *.
  rewrite andb_true_iff, !Z.leb_le in *. lia.
Qed.

Lemma closing_invested_capital_returns :
  returns (generate_closing_invested_capital self).
Proof.
  unfold generate_closing_invested_capital.
  rewrite deployments_explicit, capital_returns_explicit. simpl.
  destruct series_explicit as (dates & -> & Hdates). simpl.
  apply for_each_total. intros d m Hd.
  destruct (Hdates d Hd) as (V & H14 & _).
  destruct (prior_month_OK d V H14) as (prev & E).
  unfold closing_invested_capital_step. rewrite E. simpl. eauto.
Qed.

Lemma last_deployment_OK :
  exists last,
    max_date
      (map fst
         (Dict.items
            (map (fun k => (month_end_of (deployment_month self k), amount))
               (range n)))) = OK last.
Proof.
  destruct range_nonempty as (k & r & ->). simpl. eauto.
Qed.

Lemma fee_paying_capital_returns :
  returns (generate_fee_paying_capital self).
Proof.
  unfold generate_fee_paying_capital.
  destruct closing_invested_capital_returns as (cic & ->). simpl.
  rewrite deployments_explicit. simpl.
  destruct last_deployment_OK as (last & ->). simpl.
  destruct series_explicit as (dates & -> & Hdates). simpl.
  apply for_each_total. intros d m Hd. eauto.
Qed.

Lemma mgmt_fees_return : returns (generate_mgmt_fees self).
Proof.
  unfold generate_mgmt_fees.
  destruct closing_invested_capital_returns as (cic & ->). simpl.
  rewrite deployments_explicit. simpl.
  destruct last_deployment_OK as (last & ->). simpl.
  destruct series_explicit as (dates & -> & Hdates). simpl.
  apply for_each_total. intros d m Hd.
  destruct (Hdates d Hd) as (V & _ & H9998).
  apply valid_date_fields in V.
  destruct (days_in_year_OK d ltac:(lia)) as (v & -> & Hv). simpl.
  unfold py_div. rewrite inject_Z_nonzero by assumption.
  destruct (date_leb d last); simpl; eauto.
Qed.

Lemma carry_fraction_OK :
  ~ (carry_percent self == 1 # 2)%Q ->
  exists fraction,
    py_div (carry_percent self) ((1 # 2) - carry_percent self)%Q = OK fraction.
Proof.
  intros H. unfold py_div.
  destruct (Qeq_bool ((1 # 2) - carry_percent self) 0) eqn:E; [|eauto].
  apply Qeq_bool_iff in E. exfalso. apply H. lra.
Qed.

Lemma carry_fraction_Raise :
  (carry_percent self == 1 # 2)%Q ->
  py_div (carry_percent self) ((1 # 2) - carry_percent self)%Q
  = Raise ZeroDivisionError.
Proof.
  intros H. unfold py_div.
  assert (Qeq_bool ((1 # 2) - carry_percent self) 0 = true) as ->
    by (apply Qeq_bool_iff; lra).
  reflexivity.
Qed.

Lemma allocation_step_returns (deployments proceeds : Dict.t Q) (d : date)
  (s : schedules) :
  ~ (carry_percent self == 1 # 2)%Q ->
  valid_date d = true -> 14 <= year_month_num d ->
  exists s', allocation_step pow_twelfth self deployments proceeds d s = OK s'.
Proof.
  intros Hc V H14. destruct (prior_month_OK d V H14) as (prev & E).
  destruct (carry_fraction_OK Hc) as (fraction & F).
  unfold allocation_step. rewrite E. cbn [bind]. rewrite F. cbn [bind].
  cbv zeta.
  match goal with
  | |- context [if Qgtb ?a ?b then _ else _] => destruct (Qgtb a b)
  end; [|eauto].
  unfold py_div at 1. change (Qeq_bool (1 # 2) 0) with false. cbn [bind].
  match goal with
  | |- context [if Qgtb ?a ?b then _ else _] => destruct (Qgtb a b)
  end; eauto.
Qed.

Lemma allocation_step_raises (deployments proceeds : Dict.t Q) (d : date)
  (s : schedules) :
  (carry_percent self == 1 # 2)%Q ->
  valid_date d = true -> 14 <= year_month_num d ->
  allocation_step pow_twelfth self deployments proceeds d s
  = Raise ZeroDivisionError.
Proof.
  intros Hc V H14. destruct (prior_month_OK d V H14) as (prev & E).
  unfold allocation_step. rewrite E. cbn [bind].
  rewrite (carry_fraction_Raise Hc). reflexivity.
Qed.

Lemma allocations_return :
  ~ (carry_percent self == 1 # 2)%Q ->
  returns (generate_proceeds_allocations_as_dict pow_twelfth self).
Proof.
  intros Hc. unfold generate_proceeds_allocations_as_dict.
  rewrite deployments_explicit, proceeds_explicit, capital_returns_explicit.
  simpl. destruct series_explicit as (dates & -> & Hdates). simpl.
  apply for_each_total. intros d s Hd.
  destruct (Hdates d Hd) as (V & H14 & _).
  apply allocation_step_returns; assumption.
Qed.

Lemma allocations_raise :
  (carry_percent self == 1 # 2)%Q ->
  monthly_date_series self <> OK [] ->
  generate_proceeds_allocations_as_dict pow_twelfth self
  = Raise ZeroDivisionError.
Proof.
  intros Hc Hne. unfold generate_proceeds_allocations_as_dict.
  rewrite deployments_explicit, proceeds_explicit, capital_returns_explicit.
  simpl. destruct series_explicit as (dates & E & Hdates).
  rewrite E in *. simpl.
  destruct dates as [|d r]; [congruence|]. simpl.
  destruct (Hdates d (or_introl eq_refl)) as (V & H14 & _).
  rewrite allocation_step_raises by assumption. reflexivity.
Qed.

End Schedules.




(** A negative number of months of deployment passes validation and leaves
    the schedules empty: the date series then fails on [max] of nothing. *)
Lemma negative_months_series_fails :
  init negative_months_args = OK (constructed negative_months_args)
  /\ generate_deployments (constructed negative_months_args) = OK []
  /\ monthly_date_series (constructed negative_months_args)
     = Raise ValueError
  /\ generate_closing_invested_capital (constructed negative_months_args)
     = Raise ValueError.
Proof. repeat split; reflexivity. Qed.

(** Deployments that run past year 9999 fail in [datetime.date]. *)
Lemma late_deployments_fail :
  init late_args = OK (constructed late_args)
  /\ calendar_safe (constructed late_args) = false
  /\ generate_deployments (constructed late_args) = Raise ValueError.
Proof. repeat split; reflexivity. Qed.

(** ** The scenario of the specification *)

Example eom_feb_2024 :
  end_of_month_from_date (mkdate 2024 2 10) = OK (mkdate 2024 2 29).
Proof. reflexivity. Qed.

Example days_in_year_2024 : days_in_year (mkdate 2024 3 31) = OK 366.
Proof. reflexivity. Qed.

Example fund1_deployment_dates :
  exists deployments,
    generate_deployments (constructed fund1_args) = OK deployments
    /\ Dict.keys deployments
       = [mkdate 2021 6 30; mkdate 2021 9 30; mkdate 2021 12 31;
          mkdate 2022 3 31; mkdate 2022 6 30; mkdate 2022 9 30;
          mkdate 2022 12 31; mkdate 2023 3 31; mkdate 2023 6 30;
          mkdate 2023 9 30; mkdate 2023 12 31; mkdate 2024 3 31].
Proof. eexists. split; [vm_compute; reflexivity | reflexivity]. Qed.

Example fund1_first_capital_return :
  exists capital_returns,
    generate_capital_returns (constructed fund1_args) = OK capital_returns
    /\ hd_error (Dict.keys capital_returns) = Some (mkdate 2024 6 30).
Proof. eexists. split; [vm_compute; reflexivity | reflexivity]. Qed.

(** * Further properties of the calendar arithmetic *)



Lemma date_leb_refl_fields (a b : date) :
  year a = year b -> month a = month b -> day a <= day b ->
  date_leb a b = true.
Proof.
  intros Hy Hm Hd. unfold date_leb, date_ltb.
  rewrite Hy, Hm, !Z.ltb_irrefl, !Z.eqb_refl. simpl.
  apply negb_true_iff, Z.ltb_ge. assumption.
Qed.

(** X2.  [end_of_month_from_date] keeps the year and the month of a date and
    moves the day to the last of the month, so it never moves a date back;
    applying it again changes nothing, and it leaves a date as it is exactly
    when the date is a month-end already. *)
Theorem end_of_month_from_date_snaps (d : date) (V : valid_date d = true) :
  exists e,
    end_of_month_from_date d = OK e
    /\ year e = year d /\ month e = month d /\ day e = days_in_month d
    /\ date_leb d e = true
    /\ end_of_month_from_date e = OK e
    /\ (e = d <-> is_month_end d = true).
Proof.
  pose proof (valid_date_fields d V) as (Hy & Hm & Hd).
  exists (month_end_of (year_month_num d)).
  pose proof (month_end_of_props _ (valid_date_in_calendar d V))
    as (Ve & Ye & Me).
  assert (month_end_of (year_month_num d)
          = mkdate (year d) (month d) (monthrange (year d) (month d))) as E.
  { unfold month_end_of, year_month_num. rewrite decode_encode by lia.
    reflexivity. }
  split; [apply end_of_month_from_date_OK; assumption|].
  rewrite E. simpl. repeat split.
  - apply date_leb_refl_fields; simpl; lia.
  - rewrite <- E. rewrite end_of_month_from_date_OK by assumption.
    rewrite Ye. reflexivity.
  - intros H. unfold is_month_end. rewrite <- H at 1. simpl.
    apply Z.eqb_refl.
  - intros H. apply Z.eqb_eq in H. destruct d; simpl in *. congruence.
Qed.

Lemma end_of_month_from_date_snaps_witness :
  valid_date (mkdate 2023 2 10) = true
  /\ exists e,
       end_of_month_from_date (mkdate 2023 2 10) = OK e
       /\ day e = 28 /\ end_of_month_from_date e = OK e.
Proof.
  split; [reflexivity|].
  destruct (end_of_month_from_date_snaps (mkdate 2023 2 10) eq_refl)
    as (e & E & _ & _ & Hd & _ & Hi & _).
  exists e. split; [exact E|]. split; [exact Hd | exact Hi].
Defined.

(** X3.  With the end-of-month flag, month shifts add up: shifting the
    result of a shift by [m] months by [n] more months is shifting the
    start by [m + n] months (with the same [ValueError] outside the
    calendar), a shift by 0 is [end_of_month_from_date], and shifting back
    by [-m] returns to the month-end of the start. *)
Theorem add_n_months_compose (d e : date) (m n : Z)
  (V : valid_date d = true)
  (H : add_n_months d m true = OK e) :
  add_n_months e n true = add_n_months d (m + n) true
  /\ add_n_months d 0 true = end_of_month_from_date d
  /\ add_n_months e (- m) true = end_of_month_from_date d.
Proof.
  rewrite add_n_months_true in H by assumption.
  apply end_of_month_from_int_OK in H. destruct H as [C ->].
  destruct (month_end_of_props _ C) as (Ve & Ye & _).
  rewrite !add_n_months_true by assumption. rewrite Ye.
  unfold end_of_month_from_date. repeat split; f_equal; lia.
Qed.

Lemma add_n_months_compose_witness :
  add_n_months (mkdate 2021 1 15) 1 true = OK (mkdate 2021 2 28)
  /\ add_n_months (mkdate 2021 2 28) 1 true = OK (mkdate 2021 3 31)
  /\ add_n_months (mkdate 2021 1 15) 2 true = OK (mkdate 2021 3 31).
Proof.
  split; [reflexivity|].
  destruct (add_n_months_compose (mkdate 2021 1 15) (mkdate 2021 2 28) 1 1
              eq_refl eq_refl) as (H & _).
  split; [rewrite H|]; reflexivity.
Defined.



(** X5.  [year_month_num] follows the order of dates: an earlier date never
    has the larger number, a smaller number means a strictly earlier date,
    and two dates share the number exactly when they share year and
    month. *)
Theorem year_month_num_monotone (a b : date)
  (Va : valid_date a = true) (Vb : valid_date b = true) :
  (date_leb a b = true -> year_month_num a <= year_month_num b)
  /\ (year_month_num a < year_month_num b -> date_ltb a b = true)
  /\ (year_month_num a = year_month_num b <->
      year a = year b /\ month a = month b).
Proof.
  pose proof (valid_date_fields a Va) as (Hya & Hma & Hda).
  pose proof (valid_date_fields b Vb) as (Hyb & Hmb & Hdb).
  split; [|split].
  - unfold date_leb, date_ltb, year_month_num. intros H.
    apply negb_true_iff in H.
    apply orb_false_iff in H. destruct H as [H1 H2].
    apply Z.ltb_ge in H1.
    destruct (Z.eq_dec (year b) (year a)) as [E|E]; [|lia].
    rewrite E, Z.eqb_refl in H2. simpl in H2.
    apply orb_false_iff in H2. destruct H2 as [H2 _].
    apply Z.ltb_ge in H2. lia.
  - apply date_ltb_year_month_num; assumption.
  - unfold year_month_num. lia.
Qed.

Lemma year_month_num_monotone_witness :
  year_month_num (mkdate 2021 12 31) <= year_month_num (mkdate 2022 1 1)
  /\ date_ltb (mkdate 2021 12 31) (mkdate 2022 1 1) = true.
Proof.
  destruct (year_month_num_monotone (mkdate 2021 12 31) (mkdate 2022 1 1)
              eq_refl eq_refl) as (H1 & H2 & _).
  split; [apply H1; reflexivity | apply H2; reflexivity].
Defined.

Lemma isleap_div (y : Z) :
  y / 4 - (y - 1) / 4 - (y / 100 - (y - 1) / 100)
  + (y / 400 - (y - 1) / 400)
  = if isleap y then 1 else 0.
Proof.
  unfold isleap.
  destruct (y mod 4 =? 0) eqn:E4; destruct (y mod 100 =? 0) eqn:E100;
    destruct (y mod 400 =? 0) eqn:E400; simpl;
    rewrite ?Z.eqb_eq, ?Z.eqb_neq in *;
    Z.div_mod_to_equations; lia.
Qed.

(** X6.  For a date of the years 1..9998, [days_in_year] is 366 in a leap
    year and 365 otherwise, and it is the sum of [days_in_month] over the
    twelve months of the date's year; for a date of year 9999 it raises
    [ValueError], the first of January of year 10000 not being a date. *)
Theorem days_in_year_leap (d : date) (V : valid_date d = true) :
  (year d <= 9998 ->
   days_in_year d = OK (if isleap (year d) then 366 else 365)
   /\ days_in_year d
      = OK (fold_right Z.add 0
              (map (fun m => days_in_month (mkdate (year d) m 1))
                 [1; 2; 3; 4; 5; 6; 7; 8; 9; 10; 11; 12])))
  /\ (year d = 9999 -> days_in_year d = Raise ValueError).
Proof.
  pose proof (valid_date_fields d V) as (Hy & _).
  split.
  - intros H.
    assert (days_in_year d = OK (if isleap (year d) then 366 else 365)) as E.
    { unfold days_in_year, new_date.
      assert (valid_ymd (year d + 1) 1 1 = true) as ->
        by (apply valid_ymd_iff; unfold monthrange; simpl; lia).
      assert (valid_ymd (year d) 1 1 = true) as ->
        by (apply valid_ymd_iff; unfold monthrange; simpl; lia).
      simpl. f_equal.
      unfold toordinal, days_before_year, days_before_month. simpl.
      replace (year d + 1 - 1) with (year d) by lia.
      pose proof (isleap_div (year d)) as L.
      destruct (isleap (year d)); lia. }
    split; [exact E|]. rewrite E. f_equal.
    unfold days_in_month, monthrange. simpl.
    destruct (isleap (year d)); reflexivity.
  - intros H. unfold days_in_year, new_date. rewrite H. reflexivity.
Qed.

Lemma days_in_year_leap_witness :
  days_in_year (mkdate 2024 3 31) = OK 366
  /\ days_in_year (mkdate 1900 3 31) = OK 365
  /\ days_in_year (mkdate 9999 3 31) = Raise ValueError.
Proof.
  destruct (days_in_year_leap (mkdate 2024 3 31) eq_refl) as [H1 _].
  destruct (days_in_year_leap (mkdate 1900 3 31) eq_refl) as [H2 _].
  destruct (days_in_year_leap (mkdate 9999 3 31) eq_refl) as [_ H3].
  split; [apply H1; vm_compute; discriminate|].
  split; [apply H2; vm_compute; discriminate | apply H3; reflexivity].
Defined.

(** X7.  The series between two dates holds exactly the month-ends from the
    first date's month to the second date's month: a date is in it if and
    only if it is a month-end whose year-month number lies between those of
    the two dates. *)
Theorem generate_monthly_date_series_membership (a b : date)
  (Va : valid_date a = true) (Vb : valid_date b = true) :
  exists l,
    generate_monthly_date_series a b = OK l
    /\ forall x,
         In x l <->
         valid_date x = true /\ is_month_end x = true
         /\ year_month_num a <= year_month_num x <= year_month_num b.
Proof.
  eexists. split; [apply generate_monthly_date_series_OK; assumption|].
  assert (Hcal : forall k, 0 <= k < number_of_months_diff a b + 1 ->
            in_calendar (year_month_num a + k) = true).
  { intros k Hk. pose proof (valid_date_in_calendar a Va) as Ca.
    pose proof (valid_date_in_calendar b Vb) as Cb.
    unfold number_of_months_diff in Hk.
    unfold in_calendar in *. rewrite andb_true_iff, !Z.leb_le in *. lia. }
  intros x. rewrite in_map_iff. split.
  - intros (k & <- & Hk). apply range_In in Hk.
    destruct (month_end_of_props _ (Hcal k Hk)) as (V & Y & M).
    unfold number_of_months_diff in Hk. rewrite Y. repeat split; auto; lia.
  - intros (Vx & Mx & Hx).
    exists (year_month_num x - year_month_num a). split.
    + replace (year_month_num a + (year_month_num x - year_month_num a))
        with (year_month_num x) by lia.
      apply is_month_end_fixed; assumption.
    + apply range_In. unfold number_of_months_diff. lia.
Qed.

Lemma generate_monthly_date_series_membership_witness :
  exists l,
    generate_monthly_date_series (mkdate 2021 11 15) (mkdate 2022 2 3) = OK l
    /\ In (mkdate 2021 12 31) l /\ ~ In (mkdate 2021 12 30) l.
Proof.
  destruct (generate_monthly_date_series_membership
              (mkdate 2021 11 15) (mkdate 2022 2 3) eq_refl eq_refl)
    as (l & E & H).
  exists l. split; [exact E|]. split.
  - apply H. repeat split; try reflexivity; vm_compute; discriminate.
  - intros Hin. apply H in Hin. destruct Hin as (_ & M & _). discriminate.
Defined.

(** * Further properties of the fund engine *)

Lemma get_map_const {A : Type} (K : A -> date) (v : Q) (l : list A) (k : A) :
  In k l -> Dict.get (map (fun x => (K x, v)) l) (K k) = Some v.
Proof.
  induction l as [|x r IH]; simpl; [contradiction|].
  intros H. destruct (date_eqb (K x) (K k)) eqn:E; [reflexivity|].
  destruct H as [->|H]; [|auto].
  rewrite date_eqb_refl in E. discriminate.
Qed.

Lemma fv_compounds (rate : Q) (nper : Z) (v : Q) :
  (fv rate nper 0 (- v) == v * (1 + rate) ^ nper)%Q.
Proof.
  unfold fv. destruct (Qeq_bool rate 0) eqn:E.
  - apply Qeq_bool_iff in E.
    assert (1 + rate == 1)%Q as E1 by lra.
    rewrite E1, Qpower_1. ring.
  - assert (~ rate == 0)%Q as N.
    { intros H. apply Qeq_bool_iff in H. congruence. }
    cbv zeta. field. exact N.
Qed.





Lemma profits_explicit (pow_twelfth : Q -> Q) (self : ClosedEndFund) (n : Z) :
  validated self -> number_of_deployments self = OK n -> 1 <= n ->
  calendar_safe self = true ->
  generate_profits pow_twelfth self
  = OK (map (fun k =>
               (month_end_of (return_month self k),
                fv (irr_per_month pow_twelfth self)
                   (length_of_deployment_in_months self) 0
                   (- (committed_capital self / inject_Z n))
                - committed_capital self / inject_Z n)%Q)
          (range n)).
Proof.
  intros Hvalid Hn Hpos Hsafe. unfold generate_profits.
  rewrite (capital_returns_explicit self n),
    (proceeds_explicit pow_twelfth self n) by assumption.
  simpl. unfold Dict.items.
  rewrite (for_each_build _ fst
             (fun p => (snd p - committed_capital self / inject_Z n)%Q)).
  - simpl. rewrite map_map. reflexivity.
  - intros [d v] m Hx. apply in_map_iff in Hx.
    destruct Hx as (k & Hk & Hin). inversion Hk; subst d v.
    rewrite (get_map_const (fun k => month_end_of (return_month self k)))
      by assumption.
    reflexivity.
  - rewrite map_map. simpl. apply NoDup_map_month_end_of.
    + intros k Hk. apply (shift_calendar self n Hn Hsafe k Hk).
    + unfold return_month. intros j k Hj Hk E.
      apply (return_month_inj self n Hn j k Hj Hk). lia.
    + apply range_NoDup.
  - simpl. tauto.
Qed.

(** X10.  Under the conditions of totality, [generate_profits] has an entry
    for exactly the dates of the proceeds, the capital returns have an entry
    at each of them (the lookup never yields [None]), and the profit at a
    date is the proceed less the capital return at that date. *)
Theorem profits_are_proceeds_less_capital_returns (pow_twelfth : Q -> Q)
  (self : ClosedEndFund) (n : Z)
  (Hvalid : validated self)
  (Hn : number_of_deployments self = OK n)
  (Hpos : 1 <= n)
  (Hsafe : calendar_safe self = true) :
  exists proceeds capital_returns profits,
    generate_proceeds pow_twelfth self = OK proceeds
    /\ generate_capital_returns self = OK capital_returns
    /\ generate_profits pow_twelfth self = OK profits
    /\ Dict.keys profits = Dict.keys proceeds
    /\ (forall d value,
          Dict.get proceeds d = Some value ->
          exists capital_return,
            Dict.get capital_returns d = Some capital_return
            /\ Dict.get profits d = Some (value - capital_return)%Q).
Proof.
  eexists _, _, _.
  split; [apply (proceeds_explicit pow_twelfth self n); assumption|].
  split; [apply (capital_returns_explicit self n); assumption|].
  split; [apply (profits_explicit pow_twelfth self n); assumption|].
  split; [unfold Dict.keys; rewrite !map_map; reflexivity|].
  intros d value H. apply get_Some_In in H. apply in_map_iff in H.
  destruct H as (k & Hk & Hin). inversion Hk; subst d value.
  exists (committed_capital self / inject_Z n)%Q. split.
  - apply (get_map_const (fun k => month_end_of (return_month self k)));
      assumption.
  - apply (get_map_const (fun k => month_end_of (return_month self k)));
      assumption.
Qed.

Lemma profits_are_proceeds_less_capital_returns_witness :
  validated (constructed small_args)
  /\ exists proceeds capital_returns profits,
       generate_proceeds pow_twelfth_approx (constructed small_args)
       = OK proceeds
       /\ generate_capital_returns (constructed small_args)
          = OK capital_returns
       /\ generate_profits pow_twelfth_approx (constructed small_args)
          = OK profits
       /\ Dict.keys profits = [mkdate 2021 6 30; mkdate 2021 7 31].
Proof.
  split; [exact small_fund_is_validated|].
  destruct (profits_are_proceeds_less_capital_returns pow_twelfth_approx
              (constructed small_args) 2 small_fund_is_validated
              eq_refl ltac:(lia) eq_refl)
    as (proceeds & capital_returns & profits & H1 & H2 & H3 & H4 & _).
  exists proceeds, capital_returns, profits.
  split; [exact H1|]. split; [exact H2|]. split; [exact H3|].
  rewrite H4.
  assert (exists p, generate_proceeds pow_twelfth_approx
                      (constructed small_args) = OK p
                    /\ Dict.keys p = [mkdate 2021 6 30; mkdate 2021 7 31])
    as (p & Hp & Hk)
    by (eexists; split; [vm_compute; reflexivity | reflexivity]).
  congruence.
Defined.



Lemma keys_update_fresh {V : Type} (m : Dict.t V) (k : date) (v : V) :
  ~ In k (Dict.keys m) -> Dict.keys (Dict.update m k v) = Dict.keys m ++ [k].
Proof.
  intros H. rewrite update_fresh by (apply get_None_not_In; assumption).
  unfold Dict.keys. rewrite map_app. reflexivity.
Qed.

(** A loop whose turn appends its own date to the key list leaves the
    dates of the loop as the key list, in order. *)
Lemma for_each_keys {St : Type} (body : date -> St -> result St)
  (K : St -> list date -> Prop) :
  (forall d s s' l,
     body d s = OK s' -> K s l -> ~ In d l -> K s' (l ++ [d])) ->
  forall ds s s' l,
    NoDup ds -> (forall d, In d ds -> ~ In d l) -> K s l ->
    for_each body ds s = OK s' -> K s' (l ++ ds).
Proof.
  intros Hstep. induction ds as [|x r IH]; simpl; intros s s' l Hnd Hfresh Hk H.
  - inversion H; subst. rewrite app_nil_r. assumption.
  - inv_bind H. inversion Hnd as [|? ? Hx Hr]; subst.
    pose proof (Hstep x s x0 l E Hk (Hfresh x (or_introl eq_refl))) as Hp.
    replace (l ++ x :: r) with ((l ++ [x]) ++ r)
      by (rewrite <- app_assoc; reflexivity).
    apply (IH x0 s' (l ++ [x]) Hr); try assumption.
    intros d Hd. rewrite in_app_iff. simpl. intros [Hin|[->|[]]].
    + apply (Hfresh d); auto.
    + contradiction.
Qed.

Section KeyLists.

Variable pow_twelfth : Q -> Q.

Lemma allocation_step_keys (self : ClosedEndFund)
  (deployments proceeds : Dict.t Q) (d : date) (s s' : schedules)
  (l : list date) :
  allocation_step pow_twelfth self deployments proceeds d s = OK s' ->
  schedules_keyed_by s l -> ~ In d l -> schedules_keyed_by s' (l ++ [d]).
Proof.
  unfold allocation_step, schedules_keyed_by. intros H Hk Hd.
  destruct Hk as (K1 & K2 & K3 & K4 & K5 & K6 & K7 & K8 & K9 & K10 & K11).
  apply bind_OK in H. destruct H as (prev & Eprev & H).
  rewrite Eprev in H. cbn [bind] in H.
  apply bind_OK in H. destruct H as (fraction & Efr & H).
  destruct (Qgtb _ _) in H.
  - apply bind_OK in H. destruct H as (capacity & Ecap & H).
    destruct (Qgtb _ _) in H;
      inversion H; subst s'; clear H;
      cbn [lp_preferred_opening lp_preferred_irr_growth lp_preferred_payments
           lp_preferred_closing catch_up_opening catch_up_accruals
           catch_up_payments_gp_share catch_up_payments_lp_share
           catch_up_closing post_catch_up_payments_gp_share
           post_catch_up_payments_lp_share];
      rewrite !keys_update_fresh by congruence;
      repeat split; congruence.
  - inversion H; subst s'; clear H;
      cbn [lp_preferred_opening lp_preferred_irr_growth lp_preferred_payments
           lp_preferred_closing catch_up_opening catch_up_accruals
           catch_up_payments_gp_share catch_up_payments_lp_share
           catch_up_closing post_catch_up_payments_gp_share
           post_catch_up_payments_lp_share];
      rewrite !keys_update_fresh by congruence;
      repeat split; congruence.
Qed.

Lemma dict_loop_keys (body : date -> Dict.t Q -> result (Dict.t Q))
  (dates : list date) (m : Dict.t Q) :
  (forall d m1 m2, body d m1 = OK m2 -> exists v, m2 = Dict.update m1 d v) ->
  NoDup dates ->
  for_each body dates Dict.empty = OK m -> Dict.keys m = dates.
Proof.
  intros Hb Hnd H.
  apply (for_each_keys body (fun m l => Dict.keys m = l)) with (l := [])
    in H; try assumption; auto.
  intros d m1 m2 l E Hk Hd. destruct (Hb d m1 m2 E) as (v & ->).
  rewrite keys_update_fresh by congruence. congruence.
Qed.

(** X12.  Every schedule computed by a loop over the monthly date series
    has exactly one entry per date of the series, in the order of the
    series: the eleven waterfall schedules, the closing invested capital,
    the fee-paying capital and the management fees. *)
Theorem schedules_keyed_by_series (self : ClosedEndFund) (dates : list date)
  (Hdates : monthly_date_series self = OK dates) :
  (forall s,
     generate_proceeds_allocations_as_dict pow_twelfth self = OK s ->
     schedules_keyed_by s dates)
  /\ (forall m,
        generate_closing_invested_capital self = OK m -> Dict.keys m = dates)
  /\ (forall m,
        generate_fee_paying_capital self = OK m -> Dict.keys m = dates)
  /\ (forall m, generate_mgmt_fees self = OK m -> Dict.keys m = dates).
Proof.
  destruct (monthly_date_series_props _ _ Hdates) as (Hnd & _).
  split; [|split; [|split]].
  - intros s H. unfold generate_proceeds_allocations_as_dict in H.
    inv_bind H. inv_bind H. inv_bind H. inv_bind H.
    rewrite Hdates in E2. inversion E2; subst x2.
    apply (for_each_keys _ schedules_keyed_by) with (l := []) in H;
      try assumption; auto.
    + intros d s1 s2 l. apply allocation_step_keys.
    + unfold schedules_keyed_by. simpl. repeat split; reflexivity.
  - intros m H. unfold generate_closing_invested_capital in H.
    inv_bind H. inv_bind H. inv_bind H.
    rewrite Hdates in E1. inversion E1; subst x1.
    apply dict_loop_keys in H; try assumption.
    intros d m1 m2 Hs. apply closing_invested_capital_step_OK in Hs.
    destruct Hs as (prev & _ & ->). eauto.
  - intros m H. unfold generate_fee_paying_capital in H.
    inv_bind H. inv_bind H. inv_bind H. inv_bind H.
    rewrite Hdates in E2. inversion E2; subst x2.
    apply dict_loop_keys in H; try assumption.
    intros d m1 m2 Hs. inversion Hs. eauto.
  - intros m H. unfold generate_mgmt_fees in H.
    inv_bind H. inv_bind H. inv_bind H. inv_bind H.
    rewrite Hdates in E2. inversion E2; subst x2.
    apply dict_loop_keys in H; try assumption.
    intros d m1 m2 Hs. inv_bind Hs. inv_bind Hs. inversion Hs. eauto.
Qed.

End KeyLists.

Lemma schedules_keyed_by_series_witness :
  exists s,
    generate_proceeds_allocations_as_dict pow_twelfth_approx
      (constructed small_args) = OK s
    /\ Dict.keys (catch_up_closing s)
       = [mkdate 2021 3 31; mkdate 2021 4 30; mkdate 2021 5 31;
          mkdate 2021 6 30; mkdate 2021 7 31].
Proof.
  destruct (generate_proceeds_allocations_as_dict pow_twelfth_approx
              (constructed small_args))
    as [s|] eqn:Hs; [|vm_compute in Hs; discriminate].
  exists s. split; [reflexivity|].
  destruct (schedules_keyed_by_series pow_twelfth_approx
              (constructed small_args) _ small_fund_series) as (H & _).
  apply (H s Hs).
Defined.

Lemma py_div_OK (a b q : Q) :
  py_div a b = OK q -> ~ (b == 0)%Q /\ q = (a / b)%Q.
Proof.
  unfold py_div. destruct (Qeq_bool b 0) eqn:E; [discriminate|].
  intros H. inversion H. split; [|reflexivity].
  intros Hb. apply Qeq_bool_iff in Hb. congruence.
Qed.

(** X13.  The fee-paying capital at a date of the series is the committed
    capital up to and including the last deployment date, and afterwards
    the closing invested capital of that date, which always has an entry
    there: the default 0 of the lookup is never used. *)
Theorem fee_paying_capital_basis (self : ClosedEndFund)
  (dates : list date) (deployments closing fee_paying : Dict.t Q)
  (last : date)
  (Hdates : monthly_date_series self = OK dates)
  (Hdep : generate_deployments self = OK deployments)
  (Hlast : max_date (Dict.keys deployments) = OK last)
  (Hclosing : generate_closing_invested_capital self = OK closing)
  (Hfee : generate_fee_paying_capital self = OK fee_paying) :
  forall d, In d dates ->
    exists c,
      Dict.get closing d = Some c
      /\ Dict.get fee_paying d
         = Some (if date_leb d last then committed_capital self else c).
Proof.
  destruct (monthly_date_series_props _ _ Hdates) as (Hnd & _).
  assert (Dict.keys closing = dates) as Hkeys.
  { pose proof Hclosing as H. unfold generate_closing_invested_capital in H.
    inv_bind H. inv_bind H. inv_bind H.
    rewrite Hdates in E1. inversion E1; subst x1.
    apply dict_loop_keys in H; try assumption.
    intros d m1 m2 Hs. apply closing_invested_capital_step_OK in Hs.
    destruct Hs as (prev & _ & ->). eauto. }
  unfold generate_fee_paying_capital in Hfee.
  rewrite Hclosing, Hdep in Hfee. cbn [bind] in Hfee.
  change (map fst (Dict.items deployments)) with (Dict.keys deployments)
    in Hfee.
  rewrite Hlast, Hdates in Hfee. cbn [bind] in Hfee.
  intros d Hd.
  destruct (get_In closing d) as (c & Hc); [rewrite Hkeys; assumption|].
  exists c. split; [assumption|].
  revert d Hd c Hc.
  assert (forall d, In d dates ->
            Dict.get fee_paying d
            = Some (if date_leb d last then committed_capital self
                    else Dict.get_default closing d 0%Q)) as Hrows.
  { apply (for_each_rows _
             (fun d m =>
                Dict.get m d
                = Some (if date_leb d last then committed_capital self
                        else Dict.get_default closing d 0%Q)))
      with (3 := Hnd) (4 := Hfee).
    - intros d m1 m2 H. inversion H. apply get_update_same.
    - intros d d' m1 m2 N H Hm. inversion H.
      rewrite get_update_other; assumption. }
  intros d Hd c Hc. rewrite (Hrows d Hd).
  unfold Dict.get_default. rewrite Hc. reflexivity.
Qed.

Lemma fee_paying_capital_basis_witness :
  exists closing fee_paying,
    generate_closing_invested_capital (constructed small_args) = OK closing
    /\ generate_fee_paying_capital (constructed small_args) = OK fee_paying
    /\ forall d,
         In d [mkdate 2021 3 31; mkdate 2021 4 30; mkdate 2021 5 31;
               mkdate 2021 6 30; mkdate 2021 7 31] ->
         exists c,
           Dict.get closing d = Some c
           /\ Dict.get fee_paying d
              = Some (if date_leb d (mkdate 2021 5 31) then 100%Q else c).
Proof.
  destruct (generate_closing_invested_capital (constructed small_args))
    as [closing|] eqn:Hc; [|vm_compute in Hc; discriminate].
  destruct (generate_fee_paying_capital (constructed small_args))
    as [fee_paying|] eqn:Hf; [|vm_compute in Hf; discriminate].
  exists closing, fee_paying. split; [reflexivity|]. split; [reflexivity|].
  apply (fee_paying_capital_basis (constructed small_args) _
           [(mkdate 2021 4 30, (100 / inject_Z 2)%Q);
            (mkdate 2021 5 31, (100 / inject_Z 2)%Q)]
           closing fee_paying (mkdate 2021 5 31) small_fund_series);
    try reflexivity; assumption.
Defined.



Lemma for_each_rows_inv {St : Type} (body : date -> St -> result St)
  (Inv : St -> Prop) (P : date -> St -> Prop) :
  (forall d s s', Inv s -> body d s = OK s' -> Inv s' /\ P d s') ->
  (forall d d' s s', d <> d' -> body d' s = OK s' -> P d s -> P d s') ->
  forall ds s s',
    NoDup ds -> Inv s -> for_each body ds s = OK s' ->
    forall d, In d ds -> P d s'.
Proof.
  intros Hsame Hother.
  induction ds as [|x r IH]; simpl; intros s s' Hnd Hi H d Hd.
  - contradiction.
  - inv_bind H. inversion Hnd as [|? ? Hx Hr]; subst.
    destruct (Hsame x s x0 Hi E) as [Hi' Hp].
    destruct Hd as [<-|Hd].
    + apply (for_each_stable body (fun y => x <> y) (P x))
        with (xs := r) (s := x0); eauto.
      intros y Hy ->. contradiction.
    + apply (IH x0 s'); assumption.
Qed.

Section WaterfallBounds.

Variable pow_twelfth : Q -> Q.

(** X15.  The waterfall never overpays.  At every date of the series the
    LP-preferred payment exceeds neither the proceed nor the amount due.
    Where the proceed exceeds that payment, the two catch-up shares together
    do not exceed the surplus, the GP share does not exceed the tracked
    balance (so the catch-up closing balance is not negative), and the two
    post-catch-up shares are [carry_percent] and [1 - carry_percent] of a
    remainder that is not negative. *)
Theorem waterfall_never_overpays (self : ClosedEndFund)
  (dates : list date) (deployments proceeds : Dict.t Q) (s : schedules)
  (Hdates : monthly_date_series self = OK dates)
  (Hdep : generate_deployments self = OK deployments)
  (Hproceeds : generate_proceeds pow_twelfth self = OK proceeds)
  (Hs : generate_proceeds_allocations_as_dict pow_twelfth self = OK s) :
  forall d, In d dates ->
    exists p,
      period_at s d = Some p
      /\ (p_lp_payment p <= Dict.get_default proceeds d 0)%Q
      /\ (p_lp_payment p
          <= p_lp_opening p + p_lp_growth p
             + Dict.get_default deployments d 0)%Q
      /\ ((p_lp_payment p < Dict.get_default proceeds d 0)%Q ->
          (p_cu_payment_gp p + p_cu_payment_lp p
           <= Dict.get_default proceeds d 0 - p_lp_payment p)%Q
          /\ (p_cu_payment_gp p <= p_cu_opening p + p_cu_accrual p)%Q
          /\ (0 <= p_cu_closing p)%Q
          /\ exists remainder,
               (0 <= remainder)%Q
               /\ (p_post_gp p == remainder * carry_percent self)%Q
               /\ (p_post_lp p == remainder * (1 - carry_percent self))%Q).
Proof.
  destruct (generate_proceeds_allocations_as_dict_inv pow_twelfth _ _ _ _
              Hdates Hproceeds Hs) as (deployments' & Hdep' & Hloop).
  rewrite Hdep in Hdep'. inversion Hdep'; subst deployments'.
  destruct (monthly_date_series_props _ _ Hdates) as (Hnd & _).
  apply (waterfall_rows pow_twelfth self deployments proceeds
           (fun d p =>
              (p_lp_payment p <= Dict.get_default proceeds d 0)%Q
              /\ (p_lp_payment p
                  <= p_lp_opening p + p_lp_growth p
                     + Dict.get_default deployments d 0)%Q
              /\ ((p_lp_payment p < Dict.get_default proceeds d 0)%Q ->
                  (p_cu_payment_gp p + p_cu_payment_lp p
                   <= Dict.get_default proceeds d 0 - p_lp_payment p)%Q
                  /\ (p_cu_payment_gp p <= p_cu_opening p + p_cu_accrual p)%Q
                  /\ (0 <= p_cu_closing p)%Q
                  /\ exists remainder,
                       (0 <= remainder)%Q
                       /\ (p_post_gp p == remainder * carry_percent self)%Q
                       /\ (p_post_lp p
                           == remainder * (1 - carry_percent self))%Q)))
    with (s0 := empty_schedules); try assumption.
  intros d p hurdle lp_open cu_open fraction Hr.
  unfold period_rule in Hr.
  destruct Hr as (_ & _ & Hpay & _ & _ & _ & Hbranch).
  pose proof (py_min_spec (Dict.get_default proceeds d 0%Q)
                (p_lp_opening p + p_lp_growth p
                 + Dict.get_default deployments d 0%Q)%Q) as (M1 & M2 & _).
  rewrite <- Hpay in M1, M2.
  split; [exact M1|]. split; [exact M2|]. intros Hsurplus.
  apply Qgtb_true in Hsurplus. rewrite Hsurplus in Hbranch.
  cbv zeta in Hbranch.
  set (cu := py_min ((p_cu_opening p + p_cu_accrual p) / (1 # 2))%Q
               (Dict.get_default proceeds d 0%Q - p_lp_payment p)%Q) in *.
  pose proof (py_min_spec ((p_cu_opening p + p_cu_accrual p) / (1 # 2))%Q
                (Dict.get_default proceeds d 0%Q - p_lp_payment p)%Q)
    as (C1 & C2 & _).
  fold cu in C1, C2.
  destruct Hbranch as (Hgp & Hlp & Hcl & Hpost).
  assert ((p_cu_opening p + p_cu_accrual p) / (1 # 2)
          == 2 * (p_cu_opening p + p_cu_accrual p))%Q as Hcap
    by (field).
  rewrite Hcap in C1.
  split; [rewrite Hgp, Hlp; lra|].
  split; [rewrite Hgp; lra|].
  split; [rewrite Hcl, Hgp; lra|].
  destruct (Qgtb (Dict.get_default proceeds d 0%Q) (p_lp_payment p + cu)%Q)
    eqn:G2.
  - apply Qgtb_true in G2. destruct Hpost as [-> ->].
    exists (Dict.get_default proceeds d 0%Q - p_lp_payment p - cu)%Q.
    split; [lra|]. split; reflexivity.
  - destruct Hpost as [-> ->]. exists 0%Q.
    split; [lra|]. split; ring.
Qed.

Lemma allocation_step_closing_frame (self : ClosedEndFund)
  (deployments proceeds : Dict.t Q) (d d' : date) (s s' : schedules) :
  d' <> d ->
  allocation_step pow_twelfth self deployments proceeds d s = OK s' ->
  Dict.get (catch_up_closing s') d' = Dict.get (catch_up_closing s) d'.
Proof.
  intros N. unfold allocation_step. intros H.
  apply bind_OK in H. destruct H as (prev & Eprev & H).
  rewrite Eprev in H. cbn [bind] in H.
  apply bind_OK in H. destruct H as (fraction & Efr & H).
  destruct (Qgtb _ _) in H.
  - apply bind_OK in H. destruct H as (capacity & Ecap & H).
    destruct (Qgtb _ _) in H;
      inversion H; subst s'; clear H;
      cbn [catch_up_closing]; apply get_update_other; assumption.
  - inversion H; subst s'; clear H;
      cbn [catch_up_closing]; apply get_update_other; assumption.
Qed.

(** X16.  With [carry_catch_up] switched off the catch-up tranche stays
    empty: at every date of the series its opening balance, accrual, two
    payments and closing balance are all zero. *)
Theorem no_catch_up_without_flag (self : ClosedEndFund)
  (dates : list date) (s : schedules)
  (Hflag : carry_catch_up self = false)
  (Hdates : monthly_date_series self = OK dates)
  (Hs : generate_proceeds_allocations_as_dict pow_twelfth self = OK s) :
  forall d, In d dates ->
    exists p,
      period_at s d = Some p
      /\ (p_cu_opening p == 0)%Q /\ (p_cu_accrual p == 0)%Q
      /\ (p_cu_payment_gp p == 0)%Q /\ (p_cu_payment_lp p == 0)%Q
      /\ (p_cu_closing p == 0)%Q.
Proof.
  destruct (monthly_date_series_props _ _ Hdates) as (Hnd & _).
  unfold generate_proceeds_allocations_as_dict in Hs.
  inv_bind Hs. inv_bind Hs. inv_bind Hs. inv_bind Hs.
  rewrite Hdates in E2. inversion E2; subst x2.
  apply (for_each_rows_inv
           (allocation_step pow_twelfth self x x0)
           (fun s => forall d v,
                Dict.get (catch_up_closing s) d = Some v -> (v == 0)%Q)
           (fun d s =>
              exists p,
                period_at s d = Some p
                /\ (p_cu_opening p == 0)%Q /\ (p_cu_accrual p == 0)%Q
                /\ (p_cu_payment_gp p == 0)%Q /\ (p_cu_payment_lp p == 0)%Q
                /\ (p_cu_closing p == 0)%Q))
    with (s := empty_schedules); try assumption.
  - intros d s1 s2 Hinv Hstep.
    pose proof Hstep as Hper. apply allocation_step_period in Hper.
    destruct Hper as (prev & fraction & p & _ & _ & Hp & Hrule).
    assert ((p_cu_opening p == 0)%Q /\ (p_cu_accrual p == 0)%Q
            /\ (p_cu_payment_gp p == 0)%Q /\ (p_cu_payment_lp p == 0)%Q
            /\ (p_cu_closing p == 0)%Q) as Hzero.
    { unfold period_rule in Hrule.
      destruct Hrule as (_ & _ & _ & _ & Hopen & Haccr & Hbranch).
      assert (p_cu_opening p == 0)%Q as O.
      { rewrite Hopen. unfold Dict.get_default.
        destruct (Dict.get (catch_up_closing s1) prev) as [v|] eqn:G;
          [apply (Hinv prev v G) | reflexivity]. }
      assert (p_cu_accrual p == 0)%Q as A.
      { rewrite Haccr, Hflag. simpl. ring. }
      split; [exact O|]. split; [exact A|].
      destruct (Qgtb (Dict.get_default x0 d 0%Q) (p_lp_payment p)) eqn:G1.
      - apply Qgtb_true in G1. cbv zeta in Hbranch.
        set (cu := py_min ((p_cu_opening p + p_cu_accrual p) / (1 # 2))%Q
                     (Dict.get_default x0 d 0%Q - p_lp_payment p)%Q) in *.
        pose proof (py_min_spec
                      ((p_cu_opening p + p_cu_accrual p) / (1 # 2))%Q
                      (Dict.get_default x0 d 0%Q - p_lp_payment p)%Q)
          as (C1 & C2 & C3).
        fold cu in C1, C2, C3.
        assert ((p_cu_opening p + p_cu_accrual p) / (1 # 2) == 0)%Q as Hcap.
        { rewrite O, A. reflexivity. }
        assert (cu == 0)%Q as Hcu.
        { destruct C3 as [C3|C3]; [rewrite C3; exact Hcap|].
          rewrite Hcap in C1. rewrite C3 in C1. lra. }
        destruct Hbranch as (Hgp & Hlp & Hcl & _).
        rewrite Hcl, Hgp, Hlp, Hcu, O, A. repeat split; ring.
      - destruct Hbranch as (Hgp & Hlp & Hcl & _).
        rewrite Hcl, Hgp, Hlp, O, A. repeat split; ring. }
    split; [|exists p; tauto].
    intros d' v G. destruct (date_eqb d' d) eqn:Ed.
    + apply date_eqb_eq in Ed. subst d'.
      apply period_at_fields in Hp.
      destruct Hp as (_ & _ & _ & _ & _ & _ & _ & _ & F9 & _).
      rewrite F9 in G. inversion G; subst v. tauto.
    + apply date_eqb_neq in Ed.
      rewrite (allocation_step_closing_frame _ _ _ _ _ _ _ Ed Hstep) in G.
      apply (Hinv d' v G).
  - intros d d' s1 s2 N Hstep (p & Hp & Hrest).
    exists p. split; [|assumption].
    rewrite (allocation_step_other pow_twelfth _ _ _ _ _ _ _ N Hstep).
    assumption.
  - intros d v G. simpl in G. discriminate.
Qed.

End WaterfallBounds.

Lemma waterfall_never_overpays_witness :
  exists proceeds s,
    generate_proceeds pow_twelfth_approx (constructed small_args)
    = OK proceeds
    /\ generate_proceeds_allocations_as_dict pow_twelfth_approx
         (constructed small_args) = OK s
    /\ exists p,
         period_at s (mkdate 2021 7 31) = Some p
         /\ (p_lp_payment p
             <= Dict.get_default proceeds (mkdate 2021 7 31) 0)%Q.
Proof.
  run_small_fund proceeds s Hp Hs.
  exists proceeds, s. split; [reflexivity|]. split; [reflexivity|].
  destruct (waterfall_never_overpays pow_twelfth_approx
              (constructed small_args) _
              [(mkdate 2021 4 30, (100 / inject_Z 2)%Q);
               (mkdate 2021 5 31, (100 / inject_Z 2)%Q)]
              proceeds s small_fund_series eq_refl Hp Hs
              (mkdate 2021 7 31)) as (p & H1 & H2 & _).
  { simpl. auto 6. }
  exists p. auto.
Defined.

Lemma no_catch_up_without_flag_witness :
  exists s,
    generate_proceeds_allocations_as_dict pow_twelfth_approx
      (constructed no_catch_up_args) = OK s
    /\ exists p,
         period_at s (mkdate 2021 7 31) = Some p
         /\ (p_cu_closing p == 0)%Q /\ (p_cu_payment_gp p == 0)%Q.
Proof.
  destruct (generate_proceeds_allocations_as_dict pow_twelfth_approx
              (constructed no_catch_up_args))
    as [s|] eqn:Hs; [|vm_compute in Hs; discriminate].
  exists s. split; [reflexivity|].
  assert (monthly_date_series (constructed no_catch_up_args)
          = OK [mkdate 2021 3 31; mkdate 2021 4 30; mkdate 2021 5 31;
                mkdate 2021 6 30; mkdate 2021 7 31]) as Hd by reflexivity.
  destruct (no_catch_up_without_flag pow_twelfth_approx
              (constructed no_catch_up_args) _ s eq_refl Hd Hs
              (mkdate 2021 7 31)) as (p & H1 & _ & _ & H4 & _ & H6).
  { simpl. auto 6. }
  exists p. auto.
Defined.

(** ** The invested capital over the life of the fund *)

Lemma total_ext (f g : date -> Q) (l : list date) :
  (forall d, In d l -> (f d == g d)%Q) -> (total f l == total g l)%Q.
Proof.
  induction l as [|x r IH]; simpl; intros H; [reflexivity|].
  rewrite (H x) by (left; reflexivity).
  rewrite IH by (intros; apply H; right; assumption). reflexivity.
Qed.

Lemma total_minus (f g : date -> Q) (l : list date) :
  (total (fun d => f d - g d) l == total f l - total g l)%Q.
Proof.
  induction l as [|x r IH]; simpl; [ring|]. rewrite IH. ring.
Qed.

Lemma total_app (f : date -> Q) (l1 l2 : list date) :
  (total f (l1 ++ l2) == total f l1 + total f l2)%Q.
Proof.
  induction l1 as [|x r IH]; simpl; [ring|]. rewrite IH. ring.
Qed.

Lemma firstn_succ_nth_error {A : Type} (l : list A) (i : nat) (x : A) :
  nth_error l i = Some x -> firstn (S i) l = firstn i l ++ [x].
Proof.
  revert i. induction l as [|a r IH]; intros [|i] H; try discriminate.
  - simpl in H. inversion H. reflexivity.
  - simpl in H. change (a :: firstn (S i) r = a :: (firstn i r ++ [x])).
    f_equal. apply IH. assumption.
Qed.

(** At one key a dictionary entry, elsewhere another function: the sum over
    distinct dates that include the key. *)
Lemma total_override (a : date) (v : Q) (g : date -> Q) (l : list date) :
  NoDup l -> In a l -> (g a == 0)%Q ->
  (total (fun d => if date_eqb a d then v else g d) l == v + total g l)%Q.
Proof.
  induction l as [|x r IH]; simpl; intros Hnd Hin Hg; [contradiction|].
  inversion Hnd as [|? ? Hx Hr]; subst.
  destruct Hin as [->|Hin].
  - rewrite date_eqb_refl.
    rewrite (total_ext _ g r).
    + rewrite Hg. ring.
    + intros d Hd. assert (date_eqb a d = false) as ->; [|reflexivity].
      apply date_eqb_neq. intros ->. contradiction.
  - assert (date_eqb a x = false) as ->
      by (apply date_eqb_neq; intros ->; contradiction).
    rewrite IH by assumption. ring.
Qed.

(** The entries of a dictionary with one value per key, summed by lookup
    over distinct dates that include all the keys. *)
Lemma total_get_default (K : Z -> date) (v : Q) (ks : list Z)
  (l : list date) :
  NoDup (map K ks) -> NoDup l -> (forall k, In k ks -> In (K k) l) ->
  (total (fun d => Dict.get_default (map (fun k => (K k, v)) ks) d 0%Q) l
   == inject_Z (Z.of_nat (length ks)) * v)%Q.
Proof.
  intros Hk Hl. induction ks as [|k r IH]; intros Hin.
  - simpl. clear. induction l as [|x l IH]; simpl.
    + change (inject_Z 0) with 0%Q. ring.
    + unfold Dict.get_default in *. simpl in *. rewrite IH.
      change (inject_Z 0) with 0%Q. ring.
  - inversion Hk as [|? ? Hx Hr]; subst.
    rewrite (total_ext _
               (fun d => if date_eqb (K k) d then v
                         else Dict.get_default
                                (map (fun k => (K k, v)) r) d 0%Q)).
    + rewrite total_override.
      * rewrite IH by (try assumption; intros; apply Hin; right; assumption).
        cbn [length]. rewrite Nat2Z.inj_succ. unfold Z.succ.
        rewrite inject_Z_plus. change (inject_Z 1) with 1%Q. ring.
      * assumption.
      * apply Hin. left. reflexivity.
      * unfold Dict.get_default.
        assert (Dict.get (map (fun k => (K k, v)) r) (K k) = None) as ->;
          [|reflexivity].
        apply get_None_not_In. unfold Dict.keys. rewrite map_map.
        exact Hx.
    + intros d _. unfold Dict.get_default. simpl.
      destruct (date_eqb (K k) d); reflexivity.
Qed.

(** The closing invested capital at a date of the series is the net flow
    summed over the series up to that date. *)
Lemma closing_invested_capital_cumulative
  (deployments capital_returns : Dict.t Q) (dates : list date)
  (m : Dict.t Q) :
  NoDup dates ->
  (forall i x y,
     nth_error dates i = Some x -> nth_error dates (S i) = Some y ->
     add_n_months y (-1) true = OK x) ->
  for_each (closing_invested_capital_step deployments capital_returns)
    dates Dict.empty = OK m ->
  forall i d,
    nth_error dates i = Some d ->
    exists c,
      Dict.get m d = Some c
      /\ (c == total (net_flow deployments capital_returns)
                (firstn (S i) dates))%Q.
Proof.
  intros Hnd Hadj H. induction i as [|i IH]; intros d Hd.
  - destruct dates as [|d0 r]; [discriminate|].
    simpl in Hd. inversion Hd; subst d0.
    eexists. split; [eapply closing_invested_capital_first; eassumption|].
    simpl. unfold net_flow. ring.
  - destruct (nth_error dates i) as [x|] eqn:Hx.
    2:{ apply nth_error_None in Hx.
        assert (S i < length dates)%nat
          by (apply nth_error_Some; congruence). lia. }
    destruct (IH x eq_refl) as (cx & Gx & Ex).
    destruct (closing_invested_capital_adjacent deployments capital_returns
                dates Dict.empty m Hnd H i x d Hx Hd (Hadj i x d Hx Hd))
      as (cx' & Gx' & Gy).
    rewrite Gx in Gx'. inversion Gx'; subst cx'.
    eexists. split; [exact Gy|].
    rewrite (firstn_succ_nth_error dates (S i) d Hd), total_app, <- Ex.
    simpl. unfold net_flow. ring.
Qed.

Lemma date_ltb_iff (a b : date) :
  date_ltb a b = true <->
  year a < year b
  \/ (year a = year b
      /\ (month a < month b \/ (month a = month b /\ day a < day b))).
Proof.
  unfold date_ltb.
  rewrite orb_true_iff, andb_true_iff, orb_true_iff, andb_true_iff.
  rewrite !Z.ltb_lt, !Z.eqb_eq. tauto.
Qed.

Lemma date_ltb_false_iff (a b : date) :
  date_ltb a b = false <->
  ~ (year a < year b
     \/ (year a = year b
         /\ (month a < month b \/ (month a = month b /\ day a < day b)))).
Proof.
  rewrite <- date_ltb_iff. destruct (date_ltb a b); split; intros H;
    congruence.
Qed.

Lemma date_ltb_irrefl (a : date) : date_ltb a a = false.
Proof. apply date_ltb_false_iff. lia. Qed.

Lemma date_ge_gt (f y acc : date) :
  date_ltb f y = false -> date_ltb acc y = true -> date_ltb f acc = false.
Proof. rewrite !date_ltb_false_iff, date_ltb_iff. lia. Qed.

Lemma date_ge_ge (f acc y : date) :
  date_ltb f acc = false -> date_ltb acc y = false -> date_ltb f y = false.
Proof. rewrite !date_ltb_false_iff. lia. Qed.

Lemma max_date_ge (ds : list date) (m : date) :
  max_date ds = OK m -> forall x, In x ds -> date_ltb m x = false.
Proof.
  destruct ds as [|d r]; simpl; [discriminate|].
  intros H. inversion H as [Hm]; clear H Hm.
  assert (forall acc,
            date_ltb
              (fold_left (fun m x => if date_ltb m x then x else m) r acc)
              acc = false
            /\ forall x, In x r ->
                 date_ltb
                   (fold_left (fun m x => if date_ltb m x then x else m)
                      r acc) x = false) as Hf.
  { induction r as [|y r IH]; simpl; intros acc.
    - split; [apply date_ltb_irrefl | contradiction].
    - destruct (IH (if date_ltb acc y then y else acc)) as [H1 H2].
      destruct (date_ltb acc y) eqn:E.
      + split; [eapply date_ge_gt; eassumption|].
        intros x [<-|Hx]; auto.
      + split; [exact H1|]. intros x [<-|Hx]; [|auto].
        eapply date_ge_ge; eassumption. }
  intros x [<-|Hx]; [apply (proj1 (Hf d)) | apply (proj2 (Hf d)); exact Hx].
Qed.

Lemma date_not_ltb_year_month_num (a b : date) :
  valid_date a = true -> valid_date b = true ->
  date_ltb a b = false -> year_month_num b <= year_month_num a.
Proof.
  intros Va Vb. apply valid_date_fields in Va, Vb.
  rewrite date_ltb_false_iff. unfold year_month_num. lia.
Qed.



(** ** The schedules inside the series *)

Lemma series_covers_schedules (self : ClosedEndFund) (n : Z) :
  validated self -> number_of_deployments self = OK n -> 1 <= n ->
  calendar_safe self = true ->
  0 < number_of_months_in_between_deployments self ->
  0 <= length_of_deployment_in_months self ->
  exists dates,
    monthly_date_series self = OK dates
    /\ forall k, 0 <= k < n ->
         In (month_end_of (deployment_month self k)) dates
         /\ In (month_end_of (return_month self k)) dates.
Proof.
  intros Hvalid Hn Hpos Hsafe Hforward Hheld.
  pose proof Hvalid as (a & Ha). apply init_OK_inv in Ha.
  destruct Ha as (Vf & Vd & _ & _ & Hle & _).
  destruct (calendar_safe_spec self n Hn Hsafe) as (Hfs & Hk).
  assert (Hstart : year_month_num (fund_start_date self)
                   <= year_month_num (deployment_start_date self)).
  { apply date_not_ltb_year_month_num; try assumption.
    unfold date_leb in Hle. apply negb_true_iff in Hle. exact Hle. }
  assert (Hmonths : forall k, 0 <= k < n ->
            year_month_num (fund_start_date self) <= deployment_month self k
            /\ deployment_month self k <= return_month self k).
  { intros k Hk'. unfold return_month, deployment_month.
    assert (0 <= k * number_of_months_in_between_deployments self)
      by (apply Z.mul_nonneg_nonneg; lia).
    lia. }
  pose proof (capital_returns_explicit self n Hvalid Hn Hpos Hsafe) as Hcr.
  unfold monthly_date_series. rewrite Hcr. cbv beta iota delta [bind].
  destruct (max_date _) as [lastd|e] eqn:M.
  2:{ destruct (range_nonempty n Hpos) as (k & r & E). rewrite E in M.
      simpl in M. discriminate. }
  cbv beta iota delta [bind].
  pose proof (max_date_ge _ _ M) as Hmax.
  pose proof (max_date_In _ _ M) as Hin.
  unfold Dict.keys in Hin, Hmax. rewrite map_map in Hin, Hmax.
  simpl in Hin, Hmax. apply in_map_iff in Hin.
  destruct Hin as (k0 & Hk0 & Hin0). apply range_In in Hin0.
  destruct (Hk k0 Hin0) as (_ & C0 & _).
  destruct (month_end_of_props _ C0) as (Vl & Yl & _).
  rewrite Hk0 in Vl, Yl.
  rewrite generate_monthly_date_series_OK by assumption.
  eexists. split; [reflexivity|].
  intros k Hk'.
  assert (return_month self k <= year_month_num lastd) as Hret.
  { destruct (Hk k Hk') as (_ & C & _).
    destruct (month_end_of_props _ C) as (V & Y & _).
    rewrite <- Y. apply date_not_ltb_year_month_num; try assumption.
    apply Hmax. apply (in_map (fun k => month_end_of (return_month self k))).
    apply range_In. assumption. }
  pose proof (Hmonths k Hk').
  assert (Hmember : forall i,
            year_month_num (fund_start_date self) <= i
            <= year_month_num lastd ->
            In (month_end_of i)
              (map (fun diff =>
                      month_end_of
                        (year_month_num (fund_start_date self) + diff))
                 (range (number_of_months_diff (fund_start_date self) lastd
                         + 1)))).
  { intros i Hi. apply in_map_iff.
    exists (i - year_month_num (fund_start_date self)). split.
    - f_equal. lia.
    - apply range_In. unfold number_of_months_diff. lia. }
  split; apply Hmember; lia.
Qed.

(** X18.  Under the conditions of totality, when deployments follow each
    other forwards in time and are held for a non-negative number of
    months, every date of the deployments, the capital returns, the
    proceeds and the profits is a date of the monthly date series. *)
Theorem schedules_inside_series (pow_twelfth : Q -> Q)
  (self : ClosedEndFund) (n : Z)
  (Hvalid : validated self)
  (Hn : number_of_deployments self = OK n)
  (Hpos : 1 <= n)
  (Hsafe : calendar_safe self = true)
  (Hforward : 0 < number_of_months_in_between_deployments self)
  (Hheld : 0 <= length_of_deployment_in_months self) :
  exists dates deployments capital_returns proceeds profits,
    monthly_date_series self = OK dates
    /\ generate_deployments self = OK deployments
    /\ generate_capital_returns self = OK capital_returns
    /\ generate_proceeds pow_twelfth self = OK proceeds
    /\ generate_profits pow_twelfth self = OK profits
    /\ (forall d, In d (Dict.keys deployments) -> In d dates)
    /\ (forall d, In d (Dict.keys capital_returns) -> In d dates)
    /\ (forall d, In d (Dict.keys proceeds) -> In d dates)
    /\ (forall d, In d (Dict.keys profits) -> In d dates).
Proof.
  destruct (series_covers_schedules self n Hvalid Hn Hpos Hsafe Hforward
              Hheld) as (dates & Hd & Hcover).
  exists dates. eexists _, _, _, _.
  split; [exact Hd|].
  split; [apply (deployments_explicit self n); assumption|].
  split; [apply (capital_returns_explicit self n); assumption|].
  split; [apply (proceeds_explicit pow_twelfth self n); assumption|].
  split; [apply (profits_explicit pow_twelfth self n); assumption|].
  unfold Dict.keys. rewrite !map_map. simpl.
  repeat split; intros d H; apply in_map_iff in H;
    destruct H as (k & <- & Hk); apply range_In in Hk;
    apply (Hcover k Hk).
Qed.

Lemma schedules_inside_series_witness :
  validated (constructed fund1_args)
  /\ exists dates deployments,
       monthly_date_series (constructed fund1_args) = OK dates
       /\ generate_deployments (constructed fund1_args) = OK deployments
       /\ forall d, In d (Dict.keys deployments) -> In d dates.
Proof.
  assert (validated (constructed fund1_args)) as V
    by (exists fund1_args; reflexivity).
  split; [exact V|].
  destruct (schedules_inside_series pow_twelfth_approx
              (constructed fund1_args) 12 V
              eq_refl ltac:(lia) eq_refl ltac:(simpl; lia) ltac:(simpl; lia))
    as (dates & deployments & cr & pr & pf & H1 & H2 & _ & _ & _ & H6 & _).
  exists dates, deployments. auto.
Defined.

(** X19.  Under the conditions of totality, a fund whose monthly rate of
    return is zero makes no profit: every entry of [generate_profits] is
    zero, and so is the total profit. *)
Theorem no_return_no_profit (pow_twelfth : Q -> Q)
  (self : ClosedEndFund) (n : Z)
  (Hvalid : validated self)
  (Hn : number_of_deployments self = OK n)
  (Hpos : 1 <= n)
  (Hsafe : calendar_safe self = true)
  (Hrate : (irr_per_month pow_twelfth self == 0)%Q) :
  exists profits total,
    generate_profits pow_twelfth self = OK profits
    /\ calculate_total_profit pow_twelfth self = OK total
    /\ (forall d v, Dict.get profits d = Some v -> (v == 0)%Q)
    /\ (total == 0)%Q.
Proof.
  assert (fv (irr_per_month pow_twelfth self)
             (length_of_deployment_in_months self) 0
             (- (committed_capital self / inject_Z n))
          - committed_capital self / inject_Z n == 0)%Q as Hzero.
  { rewrite fv_compounds, Hrate.
    assert (1 + 0 == 1)%Q as -> by ring. rewrite Qpower_1. ring. }
  eexists _, _.
  split; [apply (profits_explicit pow_twelfth self n); assumption|].
  unfold calculate_total_profit.
  rewrite (profits_explicit pow_twelfth self n) by assumption.
  cbv beta iota delta [bind].
  split; [reflexivity|]. split.
  - intros d v H. apply get_Some_In in H. apply in_map_iff in H.
    destruct H as (k & Hk & _). inversion Hk. exact Hzero.
  - unfold sum, Dict.values. rewrite map_map.
    rewrite (fold_left_Qplus_const _
               (fv (irr_per_month pow_twelfth self)
                   (length_of_deployment_in_months self) 0
                   (- (committed_capital self / inject_Z n))
                - committed_capital self / inject_Z n)%Q) by reflexivity.
    rewrite Hzero. ring.
Qed.

(** X20.  The attributes of a validated fund pass validation again:
    constructing a fund from [generate_fund_inputs_summary_dict] returns the
    same fund. *)
Theorem init_inputs_summary_round_trip (self : ClosedEndFund)
  (Hvalid : validated self) :
  init (generate_fund_inputs_summary_dict self) = OK self.
Proof.
  destruct Hvalid as (a & Ha). apply init_OK_inv in Ha.
  destruct Ha as (Vf & Vd & Mf & Md & Hle & Hz & Hdiv & Hc).
  rewrite init_nonzero_interval.
  - unfold construction_spec, first_violated_check. simpl.
    rewrite Hle, Mf, Md. simpl. unfold divisible. rewrite Hdiv. simpl.
    assert (Qgtb (committed_capital self) 0 = true) as ->
      by (apply Qgtb_true; assumption).
    simpl. destruct self; reflexivity.
  - unfold valid_args. simpl. rewrite Vf, Vd. reflexivity.
  - exact Hz.
Qed.

Lemma init_inputs_summary_round_trip_witness :
  validated (constructed fund1_args)
  /\ init (generate_fund_inputs_summary_dict (constructed fund1_args))
     = OK (constructed fund1_args).
Proof.
  assert (validated (constructed fund1_args)) as V
    by (exists fund1_args; reflexivity).
  split; [exact V|].
  exact (init_inputs_summary_round_trip (constructed fund1_args) V).
Defined.

Lemma no_return_no_profit_witness :
  validated (constructed zero_irr_args)
  /\ (irr_per_month pow_twelfth_approx (constructed zero_irr_args) == 0)%Q
  /\ exists total,
       calculate_total_profit pow_twelfth_approx (constructed zero_irr_args)
       = OK total
       /\ (total == 0)%Q.
Proof.
  assert (validated (constructed zero_irr_args)) as V
    by (exists zero_irr_args; reflexivity).
  split; [exact V|]. split; [reflexivity|].
  destruct (no_return_no_profit pow_twelfth_approx
              (constructed zero_irr_args) 2 V eq_refl ltac:(lia) eq_refl
              eq_refl)
    as (profits & total & _ & Ht & _ & Hz).
  exists total. auto.
Defined.
